(** * Interactive-AI-Book: the colouring and drawing canvases

    A shallow embedding of [src/hooks/useColoringCanvas.ts] (colour
    parsing, flood fill, click handling) and of the drawing hook
    [useDrawingCanvas] (coordinate mapping, stroke state, clearing and
    the blank test), with the properties the specification states about
    them.

    Conventions of the embedding:
    - a JavaScript value read from a typed array or produced by
      [parseInt] is a [JS.value]: [undefined], [NaN] or an integer;
    - the [Uint8ClampedArray] of an [ImageData] is a [list Z], read with
      [typedGet] (out of range gives [undefined]) and written with
      [typedSet] (out of range is ignored, values are clamped);
    - pixel coordinates are [Z]; display coordinates are exact rationals;
    - the [while] loop of [floodFill] takes fuel, one unit per iteration;
      running out of fuel is [None]. *)

From Stdlib Require Import ZArith QArith Qround String Ascii Lia.
From stdpp Require Import base list.

Local Open Scope Z_scope.

(** ** JavaScript values and the operators the hooks use *)

Module JS.

Inductive value : Type :=
| Undefined
| NaN
| Num (z : Z).

(** [a === b] *)
Definition strictEq (a b : value) : bool :=
  match a, b with
  | Num x, Num y => x =? y
  | Undefined, Undefined => true
  | _, _ => false
  end.

(** [a < b]: [undefined] converts to [NaN], and a comparison with
    [NaN] is false. *)
Definition lt (a b : value) : bool :=
  match a, b with
  | Num x, Num y => x <? y
  | _, _ => false
  end.

(** [a - b] *)
Definition sub (a b : value) : value :=
  match a, b with
  | Num x, Num y => Num (x - y)
  | _, _ => NaN
  end.

(** [Math.abs(a)] *)
Definition abs (a : value) : value :=
  match a with
  | Num x => Num (Z.abs x)
  | _ => NaN
  end.

(** Conversion of a value stored into a [Uint8ClampedArray]. *)
Definition toUint8Clamp (a : value) : Z :=
  match a with
  | Num x => Z.max 0 (Z.min 255 x)
  | _ => 0
  end.

(** [data[i]] on a [Uint8ClampedArray]. *)
Definition typedGet (data : list Z) (i : Z) : value :=
  if i <? 0 then Undefined
  else match data !! Z.to_nat i with
       | Some b => Num b
       | None => Undefined
       end.

(** [data[i] = v] on a [Uint8ClampedArray]. *)
Definition typedSet (data : list Z) (i : Z) (v : value) : list Z :=
  if i <? 0 then data
  else <[Z.to_nat i := toUint8Clamp v]> data.

(** *** [parseInt(s, 16)]

    Strings are sequences of 8-bit code units; the white space of
    [parseInt] that fits in them is TAB, LF, VT, FF, CR, SP and NBSP. *)

Definition isWhiteSpace (c : ascii) : bool :=
  let n := nat_of_ascii c in
  ((9 <=? n) && (n <=? 13) || (n =? 32) || (n =? 160))%nat.

Fixpoint trimStart (s : string) : string :=
  match s with
  | String c s' => if isWhiteSpace c then trimStart s' else s
  | EmptyString => s
  end.

Definition hexDigit (c : ascii) : option Z :=
  let n := Z.of_nat (nat_of_ascii c) in
  if (48 <=? n) && (n <=? 57) then Some (n - 48)
  else if (97 <=? n) && (n <=? 102) then Some (n - 87)
  else if (65 <=? n) && (n <=? 70) then Some (n - 55)
  else None.

(** The value of the longest prefix of hexadecimal digits; [acc] is
    [None] as long as no digit was read. *)
Fixpoint digitsPrefix (s : string) (acc : option Z) : option Z :=
  match s with
  | String c s' =>
      match hexDigit c with
      | Some d => digitsPrefix s' (Some (16 * default 0 acc + d))
      | None => acc
      end
  | EmptyString => acc
  end.

Definition parseInt16 (s : string) : value :=
  let s1 := trimStart s in
  let '(sign, s2) :=
    match s1 with
    | String "-" r => (-1, r)
    | String "+" r => (1, r)
    | _ => (1, s1)
    end in
  let s3 :=
    match s2 with
    | String "0" (String "x" r) => r
    | String "0" (String "X" r) => r
    | _ => s2
    end in
  match digitsPrefix s3 None with
  | Some n => Num (sign * n)
  | None => NaN
  end.

End JS.

Import JS.

(** ** Colours *)

(** [[number, number, number, number]] *)
Definition rgba : Type := (value * value * value * value)%type.

(** [hex[i] + hex[i]] *)
Definition twice (hex : string) (i : nat) : string :=
  (substring i 1 hex ++ substring i 1 hex)%string.

(** [hex.slice(i, j)] for [i <= j] within the string *)
Definition slice (hex : string) (i j : nat) : string :=
  substring i (j - i) hex.

Definition hexToRgba (hex : string) : rgba :=
  if (String.length hex =? 4)%nat then
    (parseInt16 (twice hex 1), parseInt16 (twice hex 2),
     parseInt16 (twice hex 3), Num 255)
  else if (String.length hex =? 7)%nat then
    (parseInt16 (slice hex 1 3), parseInt16 (slice hex 3 5),
     parseInt16 (slice hex 5 7), Num 255)
  else (Num 0, Num 0, Num 0, Num 255).

(** ** Flood fill ([floodFill] of the colouring hook) *)

Definition rgb : Type := (value * value * value)%type.
Definition point : Type := (Z * Z)%type.

Definition lineThreshold : Z := 128.
Definition tolerance : Z := 32.

(** [(y * width + x) * 4] *)
Definition pixelIdx (width : Z) (p : point) : Z :=
  (snd p * width + fst p) * 4.

(** [[data[idx], data[idx+1], data[idx+2]]] *)
Definition readRgb (data : list Z) (idx : Z) : rgb :=
  (typedGet data idx, typedGet data (idx + 1), typedGet data (idx + 2)).

(** [r < lineThreshold && g < lineThreshold && b < lineThreshold] *)
Definition isLine (c : rgb) : bool :=
  let '(r, g, b) := c in
  lt r (Num lineThreshold) && lt g (Num lineThreshold)
  && lt b (Num lineThreshold).

(** [Math.abs(r - startColor[0]) < tolerance && ...] *)
Definition isSameArea (c startColor : rgb) : bool :=
  let '(r, g, b) := c in
  let '(sr, sg, sb) := startColor in
  lt (abs (sub r sr)) (Num tolerance) && lt (abs (sub g sg)) (Num tolerance)
  && lt (abs (sub b sb)) (Num tolerance).

(** [r === fillColorRgba[0] && g === fillColorRgba[1] && b === fillColorRgba[2]] *)
Definition isFillColor (c : rgb) (fill : rgba) : bool :=
  let '(r, g, b) := c in
  let '(fr, fg, fb, _) := fill in
  strictEq r fr && strictEq g fg && strictEq b fb.

(** [x < 0 || x >= width || y < 0 || y >= height] *)
Definition outOfBounds (width height : Z) (p : point) : bool :=
  (fst p <? 0) || (fst p >=? width) || (snd p <? 0) || (snd p >=? height).

(** The four assignments that colour the pixel at [idx]. *)
Definition colorPixel (data : list Z) (idx : Z) (fill : rgba) : list Z :=
  let '(fr, fg, fb, fa) := fill in
  let d1 := typedSet data idx fr in
  let d2 := typedSet d1 (idx + 1) fg in
  let d3 := typedSet d2 (idx + 2) fb in
  typedSet d3 (idx + 3) fa.

(** The neighbours pushed on the queue, in the order of the source. *)
Definition neighbours (p : point) : list point :=
  let '(x, y) := p in [(x + 1, y); (x - 1, y); (x, y + 1); (x, y - 1)].

(** The [while (queue.length > 0)] loop. *)
Fixpoint floodLoop (fuel : nat) (width height : Z) (startColor : rgb)
    (fill : rgba) (data : list Z) (queue : list point) : option (list Z) :=
  match queue with
  | [] => Some data
  | p :: rest =>
      match fuel with
      | O => None
      | S fuel' =>
          if outOfBounds width height p then
            floodLoop fuel' width height startColor fill data rest
          else
            let currentIdx := pixelIdx width p in
            let c := readRgb data currentIdx in
            if isLine c then
              floodLoop fuel' width height startColor fill data rest
            else if negb (isSameArea c startColor) then
              floodLoop fuel' width height startColor fill data rest
            else if isFillColor c fill then
              floodLoop fuel' width height startColor fill data rest
            else
              floodLoop fuel' width height startColor fill
                (colorPixel data currentIdx fill) (rest ++ neighbours p)
      end
  end.

(** [floodFill(ctx, startX, startY, fillColorRgba)] on the image data
    of the canvas; the result is the image data of the canvas afterwards
    (an early [return] leaves the canvas as it is, the normal exit puts
    the buffer back). *)
Definition floodFill (fuel : nat) (width height : Z) (data : list Z)
    (startX startY : Z) (fill : rgba) : option (list Z) :=
  let startIdx := pixelIdx width (startX, startY) in
  let startColor := readRgb data startIdx in
  if isFillColor startColor fill then Some data
  else if isLine startColor then Some data
  else floodLoop fuel width height startColor fill data [(startX, startY)].

(** *** Regions of a surface *)

(** The four channels of the pixel at [p]. *)
Definition getPixel (width : Z) (data : list Z) (p : point) : rgba :=
  let idx := pixelIdx width p in
  (typedGet data idx, typedGet data (idx + 1), typedGet data (idx + 2),
   typedGet data (idx + 3)).

(** What a coloured pixel holds. *)
Definition filledPixel (fill : rgba) : rgba :=
  let '(fr, fg, fb, fa) := fill in
  (Num (toUint8Clamp fr), Num (toUint8Clamp fg), Num (toUint8Clamp fb),
   Num (toUint8Clamp fa)).

(** A fill colour whose red, green and blue are bytes, as [hexToRgba]
    gives for the colours of the palette. *)
Definition byteChannel (v : value) : bool :=
  match v with
  | Num z => (0 <=? z) && (z <=? 255)
  | _ => false
  end.

Definition byteColor (fill : rgba) : bool :=
  let '(fr, fg, fb, _) := fill in
  byteChannel fr && byteChannel fg && byteChannel fb.

(** The image data of a [width] x [height] surface. *)
Definition wellSized (width height : Z) (data : list Z) : Prop :=
  Z.of_nat (length data) = 4 * width * height.

(** Pixels the loop colours when it meets them: in bounds, not a line,
    within tolerance of the start colour and not yet the fill colour. *)
Definition fillable (width height : Z) (data : list Z) (startColor : rgb)
    (fill : rgba) (p : point) : bool :=
  negb (outOfBounds width height p)
  && negb (isLine (readRgb data (pixelIdx width p)))
  && isSameArea (readRgb data (pixelIdx width p)) startColor
  && negb (isFillColor (readRgb data (pixelIdx width p)) fill).

(** Pixels a path may cross in the words of the specification: in
    bounds, not a line and within tolerance of the start colour. *)
Definition passable (width height : Z) (data : list Z) (startColor : rgb)
    (p : point) : bool :=
  negb (outOfBounds width height p)
  && negb (isLine (readRgb data (pixelIdx width p)))
  && isSameArea (readRgb data (pixelIdx width p)) startColor.

(** 4-connected reachability from [seed] through pixels satisfying [ok]. *)
Inductive Reach (ok : point -> bool) (seed : point) : point -> Prop :=
| reach_seed : ok seed = true -> Reach ok seed seed
| reach_step p q :
    Reach ok seed p -> q ∈ neighbours p -> ok q = true -> Reach ok seed q.

(** The region [floodFill] colours. *)
Definition Region (width height : Z) (data : list Z) (seed : point)
    (fill : rgba) : point -> Prop :=
  Reach (fillable width height data (readRgb data (pixelIdx width seed)) fill)
        seed.

(** The region of the specification: reachable without crossing a line
    pixel or a pixel out of tolerance. *)
Definition ReachSpec (width height : Z) (data : list Z) (seed : point)
    : point -> Prop :=
  Reach (passable width height data (readRgb data (pixelIdx width seed))) seed.

(** All pixels of the grid, and how many of them are not the fill colour. *)
Definition allPixels (width height : Z) : list point :=
  y ← seqZ 0 height; x ← seqZ 0 width; [(x, y)].

Definition unfilled (width : Z) (fill : rgba) (data : list Z) (p : point)
    : bool :=
  negb (isFillColor (readRgb data (pixelIdx width p)) fill).

Definition unfilledCount (width height : Z) (fill : rgba) (data : list Z)
    : nat :=
  length (List.filter (unfilled width fill data) (allPixels width height)).

(** The state of the loop between two iterations, for a fill of the
    buffer [data0] started at [seed]: every pixel is as it was or belongs
    to the region and holds the fill colour; the queue holds the seed or
    neighbours of the region; the seed and the neighbours of coloured
    pixels are queued or coloured. *)
Record FillInv (w h : Z) (data0 : list Z) (startColor : rgb) (seed : point)
    (fill : rgba) (data : list Z) (queue : list point) : Prop := {
  inv_len : length data = length data0;
  inv_pix : forall p, outOfBounds w h p = false ->
      getPixel w data p = getPixel w data0 p \/
      (Reach (fillable w h data0 startColor fill) seed p /\
       getPixel w data p = filledPixel fill);
  inv_queue : forall q, q ∈ queue ->
      q = seed \/
      exists p, Reach (fillable w h data0 startColor fill) seed p /\
                q ∈ neighbours p;
  inv_seed : fillable w h data0 startColor fill seed = true ->
      seed ∈ queue \/ getPixel w data seed = filledPixel fill;
  inv_closed : forall p q,
      Reach (fillable w h data0 startColor fill) seed p ->
      getPixel w data p = filledPixel fill ->
      q ∈ neighbours p -> fillable w h data0 startColor fill q = true ->
      q ∈ queue \/ getPixel w data q = filledPixel fill
}.

(** A set of pixels closed off by the edge of the surface and by line
    pixels. *)
Definition enclosedByLines (w h : Z) (data : list Z)
    (inside : point -> Prop) : Prop :=
  forall p q, inside p -> q ∈ neighbours p -> ~ inside q ->
    outOfBounds w h q = true \/ isLine (readRgb data (pixelIdx w q)) = true.

(** ** Canvases and pointer events *)

(** [getBoundingClientRect()]: where the canvas is displayed. *)
Record DOMRect : Type := {
  left : Q;
  top : Q;
  rectWidth : Q;
  rectHeight : Q
}.

(** An [HTMLCanvasElement]: intrinsic size, whether [getContext('2d')]
    gives a context, the pixel buffer and the displayed rectangle. *)
Record Canvas : Type := {
  width : Z;
  height : Z;
  context2d : bool;
  pixels : list Z;
  rect : DOMRect
}.

Definition setPixels (canvas : Canvas) (data : list Z) : Canvas :=
  {| width := width canvas; height := height canvas;
     context2d := context2d canvas; pixels := data; rect := rect canvas |}.

(** A [MouseEvent] with its client coordinates, or a [TouchEvent] with
    the client coordinates of its touches. *)
Inductive PointerEvent : Type :=
| MouseEvent (clientX clientY : Q)
| TouchEvent (touches : list (Q * Q)).

(** [canvas.width / rect.width] and [canvas.height / rect.height]. A
    rectangle of width or height zero is outside the embedding: the
    source divides by zero there and gets a number that is not finite. *)
Definition scaleX (canvas : Canvas) : Q :=
  (inject_Z (width canvas) / rectWidth (rect canvas))%Q.

Definition scaleY (canvas : Canvas) : Q :=
  (inject_Z (height canvas) / rectHeight (rect canvas))%Q.

(** ** The colouring hook: [handleCanvasClick] *)

(** [Math.floor((e.clientX - rect.left) * scaleX)] and the same for y.
    The quotient and the product are exact here where the source rounds
    each to a double: at a rounding boundary the source can pick the
    neighbouring pixel. *)
Definition clickPoint (canvas : Canvas) (clientX clientY : Q) : point :=
  (Qfloor ((clientX - left (rect canvas)) * scaleX canvas)%Q,
   Qfloor ((clientY - top (rect canvas)) * scaleY canvas)%Q).

(** The click handler of the colouring canvas. [calls] counts the
    invocations of [onColor]; the result is the canvas reference and the
    count afterwards. *)
Definition handleCanvasClick (fuel : nat) (canvasRef : option Canvas)
    (color : string) (clientX clientY : Q) (calls : nat)
    : option (option Canvas * nat) :=
  match canvasRef with
  | None => Some (canvasRef, calls)
  | Some canvas =>
      if negb (context2d canvas) then Some (canvasRef, calls)
      else
        let '(x, y) := clickPoint canvas clientX clientY in
        let fillColorRgba := hexToRgba color in
        match floodFill fuel (width canvas) (height canvas) (pixels canvas)
                x y fillColorRgba with
        | Some data => Some (Some (setPixels canvas data), S calls)
        | None => None
        end
  end.

(** ** The drawing hook

    [e.preventDefault()] at the head of [startDrawing] and [draw] acts on
    the event only and has no counterpart here. *)

(** The two refs of the hook. *)
Record StrokeState : Type := {
  isDrawing : bool;
  lastPosition : option (Q * Q)
}.

Definition getCoordinates (canvasRef : option Canvas) (e : PointerEvent)
    : option (Q * Q) :=
  match canvasRef with
  | None => None
  | Some canvas =>
      let client :=
        match e with
        | MouseEvent cx cy => Some (cx, cy)
        | TouchEvent (t :: _) => Some t
        | TouchEvent [] => None
        end in
      match client with
      | Some (cx, cy) =>
          Some (((cx - left (rect canvas)) * scaleX canvas)%Q,
                ((cy - top (rect canvas)) * scaleY canvas)%Q)
      | None => None
      end
  end.

Definition startDrawing (canvasRef : option Canvas) (e : PointerEvent)
    (st : StrokeState) : StrokeState :=
  match getCoordinates canvasRef e with
  | None => st
  | Some coords => {| isDrawing := true; lastPosition := Some coords |}
  end.

(** [canvas?.getContext('2d')] as a test. *)
Definition hasContext (canvasRef : option Canvas) : bool :=
  match canvasRef with
  | Some canvas => context2d canvas
  | None => false
  end.

Section Drawing.

(** The rasteriser of the platform: what [beginPath(); moveTo(from);
    lineTo(to); stroke()] makes of the pixel buffer of a canvas of the
    given size, with the stroke style the hook sets up (solid black,
    width 5, round caps and joins). *)
Variable strokeLine : Z -> Z -> list Z -> Q * Q -> Q * Q -> list Z.

Definition draw (canvasRef : option Canvas) (e : PointerEvent)
    (st : StrokeState) : StrokeState * option Canvas :=
  if negb (isDrawing st) then (st, canvasRef)
  else
    match canvasRef, getCoordinates canvasRef e, lastPosition st with
    | Some canvas, Some coords, Some last =>
        if context2d canvas then
          ({| isDrawing := isDrawing st; lastPosition := Some coords |},
           Some (setPixels canvas
                   (strokeLine (width canvas) (height canvas)
                      (pixels canvas) last coords)))
        else (st, canvasRef)
    | _, _, _ => (st, canvasRef)
    end.

End Drawing.

Definition stopDrawing (st : StrokeState) : StrokeState :=
  {| isDrawing := false; lastPosition := None |}.

(** [fillRect(0, 0, canvas.width, canvas.height)] with an opaque fill
    style: every pixel of the surface becomes that colour. *)
Definition fillRectAll (w h : Z) (r g b a : Z) : list Z :=
  mjoin (replicate (Z.to_nat (w * h)) [r; g; b; a]).

Definition clearCanvas (canvasRef : option Canvas) : option Canvas :=
  match canvasRef with
  | Some canvas =>
      if context2d canvas then
        Some (setPixels canvas
                (fillRectAll (width canvas) (height canvas) 255 255 255 255))
      else canvasRef
  | None => canvasRef
  end.

(** [new Uint32Array(data.buffer)]: four bytes make one little-endian
    word. *)
Fixpoint toUint32Array (data : list Z) : list Z :=
  match data with
  | b0 :: b1 :: b2 :: b3 :: rest =>
      Z.lor b0 (Z.lor (Z.shiftl b1 8) (Z.lor (Z.shiftl b2 16) (Z.shiftl b3 24)))
      :: toUint32Array rest
  | _ => []
  end.

Definition whitePixel : Z := 0xFFFFFFFF.

Definition isCanvasBlank (canvasRef : option Canvas) : bool :=
  match canvasRef with
  | None => true
  | Some canvas =>
      if negb (context2d canvas) then true
      else
        let pixelBuffer := toUint32Array (pixels canvas) in
        negb (existsb (fun pixel => negb (pixel =? whitePixel)) pixelBuffer)
  end.

(** A display point that falls on a pixel of the surface. *)
Definition onSurface (w h : Z) (p : Q * Q) : Prop :=
  0 <= Qfloor (fst p) < w /\ 0 <= Qfloor (snd p) < h.

(** A segment whose end points differ. *)
Definition nonDegenerate (a b : Q * Q) : Prop :=
  ~ (fst a == fst b /\ snd a == snd b)%Q.

(** The contract of the rasteriser that the blank test relies on: a
    segment with distinct end points that starts on the surface paints
    the pixel under its start point opaque black (the stroke is 5 wide
    with round caps, so that pixel lies inside it). *)
Definition paintsStart
    (strokeLine : Z -> Z -> list Z -> Q * Q -> Q * Q -> list Z) : Prop :=
  forall w h data a b,
    wellSized w h data -> onSurface w h a -> nonDegenerate a b ->
    getPixel w (strokeLine w h data a b) (Qfloor (fst a), Qfloor (snd a))
    = (Num 0, Num 0, Num 0, Num 255).

(** ** Sample surfaces *)

(** Three pixels in a row: off-white, white, off-white; and the white of
    the palette, [hexToRgba "#FFFFFF"], as the fill colour. *)
Definition row_data : list Z :=
  [250; 250; 250; 255;  255; 255; 255; 255;  250; 250; 250; 255].

Definition row_fill : rgba := (Num 255, Num 255, Num 255, Num 255).

(** A 3 x 3 surface: a white pixel in the middle of a black frame. *)
Definition framed_data : list Z :=
  [0; 0; 0; 255;  0; 0; 0; 255;        0; 0; 0; 255;
   0; 0; 0; 255;  255; 255; 255; 255;  0; 0; 0; 255;
   0; 0; 0; 255;  0; 0; 0; 255;        0; 0; 0; 255].

Definition tomato : rgba := (Num 255, Num 99, Num 71, Num 255).

(** Two pixels side by side with a little red, and a fill colour whose
    red channel is [NaN], as [hexToRgba "#GGC8C8"] gives. *)
Definition pair_data (r0 r1 : Z) : list Z :=
  [r0; 200; 200; 255;  r1; 200; 200; 255].

Definition nan_fill : rgba := (NaN, Num 200, Num 200, Num 255).

(** The [#RGB] and [#RRGGBB] strings: a [#] and three or six
    hexadecimal digits. *)
Definition allHex (s : string) : bool :=
  forallb (fun c => bool_decide (is_Some (hexDigit c))) (list_ascii_of_string s).

Definition hexTriplet (hex : string) : bool :=
  match hex with
  | String "#" digits =>
      ((String.length digits =? 3)%nat || (String.length digits =? 6)%nat)
      && allHex digits
  | _ => false
  end.

(** A canvas of one black pixel, displayed at its own size. *)
Definition line_canvas : Canvas :=
  {| width := 1; height := 1; context2d := true;
     pixels := [0; 0; 0; 255];
     rect := {| left := 0; top := 0; rectWidth := 1; rectHeight := 1 |} |}.


(** The least rasteriser the contract allows: it paints the pixel under
    the start point and nothing else. *)
Definition dotStroke (w h : Z) (data : list Z) (a b : Q * Q) : list Z :=
  colorPixel data (pixelIdx w (Qfloor (fst a), Qfloor (snd a)))
    (Num 0, Num 0, Num 0, Num 255).

(** ** Further notions for the colouring hook *)

(** The red, green and blue of a fill colour. *)
Definition rgbOf (fill : rgba) : rgb :=
  let '(fr, fg, fb, _) := fill in (fr, fg, fb).

(** A buffer of bytes, as a [Uint8ClampedArray] holds them. *)
Definition byteBuffer (data : list Z) : Prop :=
  Forall (fun b => 0 <= b <= 255) data.

(** [clearRect(0, 0, canvas.width, canvas.height)]: every pixel becomes
    transparent black, the state of a canvas nothing was drawn on. *)
Definition clearRectAll (w h : Z) : list Z := fillRectAll w h 0 0 0 0.

(** The four directions of [neighbours], as steps. *)
Inductive direction : Type := East | West | South | North.

Definition move (d : direction) (n : Z) (p : point) : point :=
  match d with
  | East => (fst p + n, snd p)
  | West => (fst p - n, snd p)
  | South => (fst p, snd p + n)
  | North => (fst p, snd p - n)
  end.

(** A white page of 2 x 2 pixels and a page of dark blue ink. *)
Definition white_page : list Z :=
  [255; 255; 255; 255;  255; 255; 255; 255;
   255; 255; 255; 255;  255; 255; 255; 255].

Definition navy : rgba := (Num 0, Num 0, Num 96, Num 255).

(** ** Rendering the line art ([drawImage], [clearColoring]) *)

(** A sequence of clicks on the colouring canvas, each with the colour
    selected at that time. *)
Fixpoint handleCanvasClicks (fuel : nat) (canvasRef : option Canvas)
    (clicks : list (string * Q * Q)) (calls : nat)
    : option (option Canvas * nat) :=
  match clicks with
  | [] => Some (canvasRef, calls)
  | (color, cx, cy) :: rest =>
      match handleCanvasClick fuel canvasRef color cx cy calls with
      | Some (canvasRef', calls') =>
          handleCanvasClicks fuel canvasRef' rest calls'
      | None => None
      end
  end.

(** [!base64Image]: [null] and the empty string count as no image. *)
Definition noImage (base64Image : option string) : bool :=
  match base64Image with
  | None => true
  | Some EmptyString => true
  | Some _ => false
  end.

(** [coloredImageDataUrl || `data:image/png;base64,${base64Image}`] *)
Definition imageSrc (base64Image : string)
    (coloredImageDataUrl : option string) : string :=
  match coloredImageDataUrl with
  | Some (String c url) => String c url
  | _ => ("data:image/png;base64," ++ base64Image)%string
  end.

(** The effect that registers the click listener: the handler is on
    the canvas only while there is a canvas and an image. *)
Definition listening (canvasRef : option Canvas)
    (base64Image : option string) : bool :=
  match canvasRef with
  | Some _ => negb (noImage base64Image)
  | None => false
  end.

(** A click on the canvas element: the handler runs if it is registered. *)
Definition click (fuel : nat) (canvasRef : option Canvas)
    (base64Image : option string) (color : string) (cx cy : Q)
    (calls : nat) : option (option Canvas * nat) :=
  if listening canvasRef base64Image
  then handleCanvasClick fuel canvasRef color cx cy calls
  else Some (canvasRef, calls).

Section Images.

(** The image decoder of the platform: the pixels that [clearRect]
    followed by [drawImage(img, 0, 0, width, height)] leaves on a canvas
    of the given size once the image with that source has loaded, or
    [None] when it never loads. *)
Variable decodeImage : string -> Z -> Z -> option (list Z).

(** What [img.onload] does to the canvas. *)
Definition onload (canvas : Canvas) (src : string) : option Canvas :=
  match decodeImage src (width canvas) (height canvas) with
  | Some data => Some (setPixels canvas data)
  | None => Some canvas
  end.

(** The canvas after [drawImage] and the load of its image. *)
Definition drawImage (canvasRef : option Canvas)
    (base64Image coloredImageDataUrl : option string) : option Canvas :=
  match canvasRef with
  | None => canvasRef
  | Some canvas =>
      if negb (context2d canvas) then canvasRef
      else if noImage base64Image then
        Some (setPixels canvas
                (clearRectAll (width canvas) (height canvas)))
      else onload canvas (imageSrc (default EmptyString base64Image)
                            coloredImageDataUrl)
  end.

(** The canvas after [clearColoring] and the load of its image. *)
Definition clearColoring (canvasRef : option Canvas)
    (base64Image : option string) : option Canvas :=
  match canvasRef with
  | None => canvasRef
  | Some canvas =>
      if noImage base64Image then canvasRef
      else if negb (context2d canvas) then canvasRef
      else onload canvas (imageSrc (default EmptyString base64Image) None)
  end.

End Images.

(** ** Further notions for colour parsing *)

(** What a channel of [hexToRgba] can be: [NaN], or an integer that two
    characters can spell in base 16, a sign included. *)
Definition parsedChannel (v : value) : bool :=
  match v with
  | NaN => true
  | Num n => (-15 <=? n) && (n <=? 255)
  | Undefined => false
  end.

(** The channel that the [#RGB] form reads from one character. *)
Definition doubledDigit (c : ascii) : value :=
  match hexDigit c with
  | Some d => Num (16 * d + d)
  | None => NaN
  end.

(** All 8-bit code units. *)
Definition allAscii : list ascii := List.map ascii_of_nat (seq 0 256).

(** ** The history of creations ([App.tsx])

    The state updaters of the component, as functions on the list of
    items and the id of the active one. Writing the list to
    [localStorage] is wrapped in [try]/[catch] and does not change what
    an updater returns; it has no counterpart here. *)

Module History.

Record HistoryItem : Type := {
  id : Z;
  userDrawingDataUrl : string;
  recognizedText : string;
  generatedImage : string;
  coloredImageDataUrl : option string;
  storyText : option string;
  speechData : option string;
  videoApiUri : option string;
  storyImageDataUrl : option string
}.

(** [{ ...item, coloredImageDataUrl: v }], and the item without the
    property for [None]. *)
Definition withColored (item : HistoryItem) (v : option string)
    : HistoryItem :=
  {| id := id item;
     userDrawingDataUrl := userDrawingDataUrl item;
     recognizedText := recognizedText item;
     generatedImage := generatedImage item;
     coloredImageDataUrl := v;
     storyText := storyText item;
     speechData := speechData item;
     videoApiUri := videoApiUri item;
     storyImageDataUrl := storyImageDataUrl item |}.

(** [item.id === activeHistoryId], with [null] for no active item. *)
Definition isActive (activeHistoryId : option Z) (item : HistoryItem)
    : bool :=
  match activeHistoryId with
  | Some a => id item =? a
  | None => false
  end.

(** The truth value of [activeHistoryId] in a condition: [null] and [0]
    are false. *)
Definition truthy (activeHistoryId : option Z) : bool :=
  match activeHistoryId with
  | Some a => negb (a =? 0)
  | None => false
  end.

(** [history.find(h => h.id === activeHistoryId)] *)
Definition activeItem (history : list HistoryItem)
    (activeHistoryId : option Z) : option HistoryItem :=
  List.find (isActive activeHistoryId) history.

(** The callback given to the colouring hook as [onColor];
    [coloredDataUrl] is what [toDataURL('image/png')] gives for the
    canvas. *)
Definition handleOnColor (canvasRef : option Canvas)
    (coloredDataUrl : string) (activeHistoryId : option Z)
    (history : list HistoryItem) : list HistoryItem :=
  match canvasRef with
  | Some _ =>
      if truthy activeHistoryId then
        List.map (fun item =>
                    if isActive activeHistoryId item
                    then withColored item (Some coloredDataUrl)
                    else item) history
      else history
  | None => history
  end.

(** The history after [handleClearColoring]. *)
Definition handleClearColoring (activeHistoryId : option Z)
    (history : list HistoryItem) : list HistoryItem :=
  if truthy activeHistoryId then
    List.map (fun item =>
                if isActive activeHistoryId item
                then withColored item None
                else item) history
  else history.

(** The history and the active id after [handleDeleteHistoryItem];
    [confirmed] is the answer of [window.confirm]. *)
Definition handleDeleteHistoryItem (confirmed : bool) (idToDelete : Z)
    (history : list HistoryItem) (activeHistoryId : option Z)
    : list HistoryItem * option Z :=
  if confirmed then
    (List.filter (fun item => negb (id item =? idToDelete)) history,
     match activeHistoryId with
     | Some a => if a =? idToDelete then None else activeHistoryId
     | None => None
     end)
  else (history, activeHistoryId).

(** The end of [handleGenerate]: the new item is appended and becomes
    the active one. *)
Definition addHistoryItem (newHistoryItem : HistoryItem)
    (history : list HistoryItem) : list HistoryItem * option Z :=
  (history ++ [newHistoryItem], Some (id newHistoryItem)).

(** The active id after [handleHistoryClick]. *)
Definition handleHistoryClick (clicked : Z) (history : list HistoryItem)
    (activeHistoryId : option Z) : option Z :=
  match activeItem history (Some clicked) with
  | Some _ => Some clicked
  | None => activeHistoryId
  end.

End History.

(** A creation with a picture saved as its colouring. *)
Definition sample_item : History.HistoryItem :=
  {| History.id := 1700000000000;
     History.userDrawingDataUrl := "data:image/png;base64,AAAA";
     History.recognizedText := "a smiling cat";
     History.generatedImage := "iVBOR";
     History.coloredImageDataUrl := None;
     History.storyText := None;
     History.speechData := None;
     History.videoApiUri := None;
     History.storyImageDataUrl := None |}.

(** ** Speech audio ([decodePcmAudioData] of [App.tsx]) *)

(** The signed 16-bit number of two bytes, low byte first. *)
Definition int16 (lo hi : Z) : Z :=
  let u := lo + 256 * hi in
  if u <? 32768 then u else u - 65536.

Fixpoint int16Words (data : list Z) : list Z :=
  match data with
  | lo :: hi :: rest => int16 lo hi :: int16Words rest
  | _ => []
  end.

(** [new Int16Array(data.buffer)]: a [RangeError] when the number of
    bytes is odd. *)
Definition toInt16Array (data : list Z) : option (list Z) :=
  if Nat.even (length data) then Some (int16Words data) else None.

(** One channel of the buffer after the two loops: sample [i] is
    [dataInt16[i * numChannels + channel] / 32768.0], and a read past the
    end of the array would make it [NaN], here [None]. Quotients of a
    16-bit number by 32768 are exact in single precision, so samples are
    rationals. *)
Definition channelSamples (dataInt16 : list Z)
    (numChannels frameCount channel : nat) : list (option Q) :=
  List.map (fun i =>
              (fun v => (inject_Z v / 32768)%Q)
                <$> dataInt16 !! (i * numChannels + channel)%nat)
           (seq 0 frameCount).

Section Audio.

(** What [createBuffer] of the platform accepts: the largest number of
    channels (at least 32) and the sample rates (at least those from
    8000 to 96000). *)
Variable maxChannels : nat.
Variable supportedRate : Z -> bool.

(** The channels of the [AudioBuffer] that
    [decodePcmAudioData(data, ctx, sampleRate, numChannels)] returns, or
    [None] when it throws: on an odd number of bytes, and when
    [createBuffer] is asked for no channel, for more channels than it
    supports, for a sample rate it does not support or for no frame. The
    number of frames is the whole part of
    [dataInt16.length / numChannels]. *)
Definition decodePcmAudioData (data : list Z) (sampleRate : Z)
    (numChannels : nat) : option (list (list (option Q))) :=
  match toInt16Array data with
  | None => None
  | Some dataInt16 =>
      let frameCount := (length dataInt16 / numChannels)%nat in
      if ((numChannels =? 0) || (maxChannels <? numChannels)
          || negb (supportedRate sampleRate)
          || (frameCount =? 0))%nat then None
      else Some (List.map (channelSamples dataInt16 numChannels frameCount)
                   (seq 0 numChannels))
  end.

End Audio.

(** A sample that is a number in the range of audio samples. *)
Definition sampleInRange (s : option Q) : Prop :=
  exists q, s = Some q /\ (-1 <= q)%Q /\ (q < 1)%Q.

(** ** The palette ([colors] of [App.tsx]) *)

Definition colors : list string :=
  ["#FF6347"; "#FFD700"; "#ADFF2F"; "#1E90FF"; "#9370DB";
   "#FF69B4"; "#FFA500"; "#00CED1"; "#808080"; "#FFFFFF"]%string.

(** What the fill needs of a pair of palette colours to paint the second
    over the first: both parse to byte channels, the first is no line
    colour and, when the strings differ, the colours differ. *)
Definition paintsOver (a b : string) : bool :=
  hexTriplet a && byteColor (hexToRgba a) && byteColor (hexToRgba b)
  && negb (isLine (rgbOf (hexToRgba a)))
  && (String.eqb a b || negb (isFillColor (rgbOf (hexToRgba a)) (hexToRgba b))).

(** * Properties *)

(** ** Typed-array reads and writes *)

Lemma typedGet_Num data i b :
  typedGet data i = Num b -> 0 <= i < Z.of_nat (length data).
Proof.
  unfold typedGet. destruct (Z.ltb_spec i 0) as [|Hi]; [discriminate|].
  destruct (data !! Z.to_nat i) eqn:E; [|discriminate].
  intros _. apply lookup_lt_Some in E. lia.
Qed.

Lemma typedGet_in_range data i :
  0 <= i < Z.of_nat (length data) -> exists b, typedGet data i = Num b.
Proof.
  intros Hi. unfold typedGet.
  destruct (Z.ltb_spec i 0); [lia|].
  destruct (lookup_lt_is_Some_2 data (Z.to_nat i)) as [b ->]; [lia|eauto].
Qed.

Lemma length_typedSet data i v : length (typedSet data i v) = length data.
Proof. unfold typedSet. destruct (i <? 0); [done|apply length_insert]. Qed.

Lemma typedGet_typedSet_eq data i v :
  0 <= i < Z.of_nat (length data) ->
  typedGet (typedSet data i v) i = Num (toUint8Clamp v).
Proof.
  intros Hi. unfold typedGet, typedSet.
  destruct (Z.ltb_spec i 0); [lia|].
  rewrite list_lookup_insert_eq; [done|lia].
Qed.

Lemma typedGet_typedSet_ne data i j v :
  i <> j -> typedGet (typedSet data i v) j = typedGet data j.
Proof.
  intros Hij. unfold typedGet, typedSet.
  destruct (Z.ltb_spec j 0); [done|].
  destruct (Z.ltb_spec i 0); [done|].
  rewrite list_lookup_insert_ne; [done|lia].
Qed.

Lemma length_colorPixel data idx fill :
  length (colorPixel data idx fill) = length data.
Proof.
  destruct fill as [[[fr fg] fb] fa]. unfold colorPixel.
  by rewrite !length_typedSet.
Qed.

(** A read outside the four written indices sees the old buffer. *)
Lemma typedGet_colorPixel_other data idx fill j :
  j < idx \/ idx + 3 < j ->
  typedGet (colorPixel data idx fill) j = typedGet data j.
Proof.
  intros Hj. destruct fill as [[[fr fg] fb] fa]. unfold colorPixel.
  rewrite !typedGet_typedSet_ne by lia. done.
Qed.

(** The three colour channels read back after colouring, as soon as they
    are inside the buffer. *)
Lemma readRgb_colorPixel data idx fill :
  0 <= idx -> idx + 2 < Z.of_nat (length data) ->
  readRgb (colorPixel data idx fill) idx
  = (let '(fr, fg, fb, _) := fill in
     (Num (toUint8Clamp fr), Num (toUint8Clamp fg), Num (toUint8Clamp fb))).
Proof.
  intros H0 H2. destruct fill as [[[fr fg] fb] fa]. unfold colorPixel, readRgb.
  f_equal; [f_equal|].
  - rewrite !typedGet_typedSet_ne by lia.
    apply typedGet_typedSet_eq. lia.
  - rewrite !typedGet_typedSet_ne by lia.
    apply typedGet_typedSet_eq. rewrite length_typedSet. lia.
  - rewrite !typedGet_typedSet_ne by lia.
    apply typedGet_typedSet_eq. rewrite !length_typedSet. lia.
Qed.

Lemma getPixel_colorPixel_same w data p fill :
  0 <= pixelIdx w p -> pixelIdx w p + 3 < Z.of_nat (length data) ->
  getPixel w (colorPixel data (pixelIdx w p) fill) p = filledPixel fill.
Proof.
  intros H0 H3. unfold getPixel.
  pose proof (readRgb_colorPixel data (pixelIdx w p) fill H0 ltac:(lia)) as Hrgb.
  destruct fill as [[[fr fg] fb] fa]. unfold readRgb, colorPixel in *.
  injection Hrgb as Hr Hg Hb. rewrite Hr, Hg, Hb.
  unfold filledPixel. f_equal.
  apply typedGet_typedSet_eq.
  rewrite !length_typedSet. lia.
Qed.

(** ** Pixels of the grid *)

Lemma outOfBounds_false w h p :
  outOfBounds w h p = false <-> 0 <= fst p < w /\ 0 <= snd p < h.
Proof. unfold outOfBounds. lia. Qed.

(** Distinct pixels of the grid occupy disjoint blocks of four bytes. *)
Lemma pixelIdx_apart w h p q :
  outOfBounds w h p = false -> outOfBounds w h q = false -> p <> q ->
  pixelIdx w q + 3 < pixelIdx w p \/ pixelIdx w p + 3 < pixelIdx w q.
Proof.
  rewrite !outOfBounds_false. destruct p as [px py], q as [qx qy].
  unfold pixelIdx. simpl. intros Hp Hq Hne.
  destruct (Z.lt_trichotomy py qy) as [Hy|[Hy|Hy]].
  - right. nia.
  - subst qy. assert (px <> qx) by congruence. lia.
  - left. nia.
Qed.

Lemma pixelIdx_nonneg w h p :
  outOfBounds w h p = false -> 0 <= pixelIdx w p.
Proof.
  rewrite outOfBounds_false. destruct p as [px py]. unfold pixelIdx. simpl. nia.
Qed.

Lemma pixelIdx_in_range w h data p :
  wellSized w h data -> outOfBounds w h p = false ->
  0 <= pixelIdx w p /\ pixelIdx w p + 3 < Z.of_nat (length data).
Proof.
  unfold wellSized. intros Hlen Hp. split; [by eapply pixelIdx_nonneg|].
  apply outOfBounds_false in Hp. destruct p as [px py].
  unfold pixelIdx. simpl in *. nia.
Qed.

Lemma readRgb_colorPixel_other w h data p q fill :
  outOfBounds w h p = false -> outOfBounds w h q = false -> p <> q ->
  readRgb (colorPixel data (pixelIdx w p) fill) (pixelIdx w q)
  = readRgb data (pixelIdx w q).
Proof.
  intros Hp Hq Hne. pose proof (pixelIdx_apart w h p q Hp Hq Hne).
  unfold readRgb. rewrite !typedGet_colorPixel_other by lia. done.
Qed.

Lemma getPixel_colorPixel_other w h data p q fill :
  outOfBounds w h p = false -> outOfBounds w h q = false -> p <> q ->
  getPixel w (colorPixel data (pixelIdx w p) fill) q = getPixel w data q.
Proof.
  intros Hp Hq Hne. pose proof (pixelIdx_apart w h p q Hp Hq Hne).
  unfold getPixel. rewrite !typedGet_colorPixel_other by lia. done.
Qed.

Lemma elem_of_allPixels w h p :
  p ∈ allPixels w h <-> outOfBounds w h p = false.
Proof.
  rewrite outOfBounds_false. unfold allPixels. destruct p as [px py]. simpl.
  rewrite list_elem_of_bind. split.
  - intros (y & Hin & Hy). apply list_elem_of_bind in Hin as (x & Hin & Hx).
    apply list_elem_of_singleton in Hin. injection Hin as -> ->.
    apply elem_of_seqZ in Hx, Hy. lia.
  - intros [Hx Hy]. exists py. split; [|apply elem_of_seqZ; lia].
    apply list_elem_of_bind. exists px. split; [|apply elem_of_seqZ; lia].
    by apply list_elem_of_singleton.
Qed.

Lemma length_allPixels w h :
  length (allPixels w h) = (Z.to_nat h * Z.to_nat w)%nat.
Proof.
  unfold allPixels.
  assert (Hrow : forall (y : Z) (l : list Z),
             length (l ≫= (fun x => [(x, y)])) = length l).
  { intros y l. induction l as [|a l IH]; [done|].
    rewrite bind_cons, length_app, IH. done. }
  assert (Hall : forall l : list Z,
             length (l ≫= (fun y => seqZ 0 w ≫= (fun x => [(x, y)])))
             = (length l * Z.to_nat w)%nat).
  { induction l as [|a l IH]; [done|].
    rewrite bind_cons, length_app, IH, Hrow, length_seqZ. simpl. lia. }
  rewrite Hall, length_seqZ. done.
Qed.

(** ** Counting with two predicates *)

Lemma filter_length_le {A} (f g : A -> bool) (l : list A) :
  (forall y, y ∈ l -> g y = true -> f y = true) ->
  (length (List.filter g l) <= length (List.filter f l))%nat.
Proof.
  induction l as [|a l IH]; intros Hgf; [done|]. simpl.
  assert (IH' : (length (List.filter g l) <= length (List.filter f l))%nat).
  { apply IH. intros y Hy. apply Hgf. by right. }
  destruct (g a) eqn:Hg.
  - rewrite (Hgf a) by (done || left). simpl. lia.
  - destruct (f a); simpl; lia.
Qed.

Lemma filter_length_lt {A} (f g : A -> bool) (l : list A) (x : A) :
  x ∈ l -> f x = true -> g x = false ->
  (forall y, y ∈ l -> g y = true -> f y = true) ->
  (length (List.filter g l) < length (List.filter f l))%nat.
Proof.
  induction l as [|a l IH]; intros Hx Hfx Hgx Hgf.
  - by apply elem_of_nil in Hx.
  - assert (Htl : forall y, y ∈ l -> g y = true -> f y = true).
    { intros y Hy. apply Hgf. by right. }
    apply elem_of_cons in Hx as [<-|Hx].
    + simpl. rewrite Hfx, Hgx. simpl.
      pose proof (filter_length_le f g l Htl). lia.
    + specialize (IH Hx Hfx Hgx Htl). simpl.
      destruct (g a) eqn:Hg.
      * rewrite (Hgf a) by (done || left). simpl. lia.
      * destruct (f a); simpl; lia.
Qed.

Lemma filter_length_bound {A} (f : A -> bool) (l : list A) :
  (length (List.filter f l) <= length l)%nat.
Proof. induction l as [|a l IH]; simpl; [done|]. destruct (f a); simpl; lia. Qed.

(** ** Colour tests *)

Lemma isSameArea_Num c startColor :
  isSameArea c startColor = true ->
  exists r g b, c = (Num r, Num g, Num b).
Proof.
  destruct c as [[r g] b], startColor as [[sr sg] sb]. unfold isSameArea.
  destruct r, g, b; simpl; try (rewrite ?andb_false_r; discriminate); eauto.
Qed.

Lemma isSameArea_refl r g b :
  isSameArea (Num r, Num g, Num b) (Num r, Num g, Num b) = true.
Proof.
  unfold isSameArea, tolerance. simpl. rewrite !Z.sub_diag. done.
Qed.

Lemma byteChannel_clamp v :
  byteChannel v = true -> Num (toUint8Clamp v) = v.
Proof. destruct v; simpl; try discriminate. intros. f_equal. lia. Qed.

Lemma filledPixel_isFillColor fill :
  byteColor fill = true ->
  isFillColor (let '(fr, fg, fb, _) := fill in
               (Num (toUint8Clamp fr), Num (toUint8Clamp fg),
                Num (toUint8Clamp fb))) fill = true.
Proof.
  destruct fill as [[[fr fg] fb] fa]. unfold byteColor.
  intros H. apply andb_prop in H as [H Hb]. apply andb_prop in H as [Hr Hg].
  rewrite !byteChannel_clamp by done.
  destruct fr, fg, fb; try discriminate. simpl. by rewrite !Z.eqb_refl.
Qed.

(** Colouring a pixel the loop accepts makes it the fill colour. *)
Lemma readRgb_colored w data p startColor fill :
  byteColor fill = true ->
  isSameArea (readRgb data (pixelIdx w p)) startColor = true ->
  isFillColor (readRgb (colorPixel data (pixelIdx w p) fill) (pixelIdx w p))
    fill = true.
Proof.
  intros Hfill Hsame.
  destruct (isSameArea_Num _ _ Hsame) as (r & g & b & Hc).
  unfold readRgb in Hc. injection Hc as Hr _ Hb.
  apply typedGet_Num in Hr, Hb.
  rewrite readRgb_colorPixel by lia. by apply filledPixel_isFillColor.
Qed.

(** ** Termination of the loop *)

Lemma unfilledCount_colorPixel w h data p startColor fill :
  byteColor fill = true ->
  outOfBounds w h p = false ->
  isSameArea (readRgb data (pixelIdx w p)) startColor = true ->
  isFillColor (readRgb data (pixelIdx w p)) fill = false ->
  (unfilledCount w h fill (colorPixel data (pixelIdx w p) fill)
   < unfilledCount w h fill data)%nat.
Proof.
  intros Hfill Hp Hsame Hnot. unfold unfilledCount.
  apply filter_length_lt with (x := p).
  - by apply elem_of_allPixels.
  - unfold unfilled. by rewrite Hnot.
  - unfold unfilled. by erewrite readRgb_colored.
  - intros q Hq. apply elem_of_allPixels in Hq. unfold unfilled.
    destruct (decide (p = q)) as [<-|Hne].
    + by erewrite readRgb_colored.
    + by erewrite readRgb_colorPixel_other.
Qed.

Lemma length_neighbours p : length (neighbours p) = 4%nat.
Proof. by destruct p. Qed.

Lemma floodLoop_cons fuel w h startColor fill data p rest :
  floodLoop (S fuel) w h startColor fill data (p :: rest)
  = if outOfBounds w h p then
      floodLoop fuel w h startColor fill data rest
    else if isLine (readRgb data (pixelIdx w p)) then
      floodLoop fuel w h startColor fill data rest
    else if negb (isSameArea (readRgb data (pixelIdx w p)) startColor) then
      floodLoop fuel w h startColor fill data rest
    else if isFillColor (readRgb data (pixelIdx w p)) fill then
      floodLoop fuel w h startColor fill data rest
    else
      floodLoop fuel w h startColor fill
        (colorPixel data (pixelIdx w p) fill) (rest ++ neighbours p).
Proof. reflexivity. Qed.

Lemma floodLoop_nil fuel w h startColor fill data :
  floodLoop fuel w h startColor fill data [] = Some data.
Proof. by destruct fuel. Qed.

(** One iteration: the four ways to skip the head of the queue, then the
    colouring branch. *)
Ltac loop_cases w h startColor fill data p :=
  rewrite floodLoop_cons;
  destruct (outOfBounds w h p) eqn:Hp;
  [|destruct (isLine (readRgb data (pixelIdx w p))) eqn:Hline;
    [|destruct (isSameArea (readRgb data (pixelIdx w p)) startColor) eqn:Hsame;
      cbn [negb];
      [destruct (isFillColor (readRgb data (pixelIdx w p)) fill) eqn:Hnot|]]].

Lemma floodLoop_terminates w h startColor fill :
  byteColor fill = true ->
  forall fuel data queue,
    (4 * unfilledCount w h fill data + length queue <= fuel)%nat ->
    exists data', floodLoop fuel w h startColor fill data queue = Some data'.
Proof.
  intros Hfill. induction fuel as [|fuel IH]; intros data queue Hfuel.
  - destruct queue; [simpl; eauto|simpl in Hfuel; lia].
  - destruct queue as [|p rest]; [simpl; eauto|].
    cbn [length] in Hfuel.
    loop_cases w h startColor fill data p; try (apply IH; lia).
    apply IH. rewrite length_app, length_neighbours.
    pose proof (unfilledCount_colorPixel w h data p startColor fill
                  Hfill Hp Hsame Hnot). lia.
Qed.

Lemma floodLoop_fuel_mono w h startColor fill :
  forall fuel fuel' data queue data',
    floodLoop fuel w h startColor fill data queue = Some data' ->
    (fuel <= fuel')%nat ->
    floodLoop fuel' w h startColor fill data queue = Some data'.
Proof.
  induction fuel as [|fuel IH]; intros fuel' data queue data' Hrun Hle.
  - destruct queue; [|discriminate]. by destruct fuel'.
  - destruct fuel' as [|fuel']; [lia|].
    destruct queue as [|p rest]; [done|].
    rewrite floodLoop_cons in Hrun.
    loop_cases w h startColor fill data p;
      apply IH with (fuel' := fuel') in Hrun; done || lia.
Qed.

Lemma unfilledCount_bound w h fill data :
  (unfilledCount w h fill data <= Z.to_nat h * Z.to_nat w)%nat.
Proof.
  unfold unfilledCount. rewrite <- length_allPixels. apply filter_length_bound.
Qed.

(** ** The loop colours the region of the seed *)

Lemma Reach_ok ok seed p : Reach ok seed p -> ok p = true.
Proof. by destruct 1. Qed.

Lemma Reach_seed_ok ok seed p : Reach ok seed p -> ok seed = true.
Proof. induction 1; done. Qed.

Lemma Reach_mono (ok ok' : point -> bool) seed p :
  (forall q, ok q = true -> ok' q = true) ->
  Reach ok seed p -> Reach ok' seed p.
Proof.
  intros Himp. induction 1 as [Hs|p q _ IH Hq Hok].
  - apply reach_seed. by apply Himp.
  - eapply reach_step; [exact IH|exact Hq|by apply Himp].
Qed.

Lemma fillable_inBounds w h data startColor fill p :
  fillable w h data startColor fill p = true -> outOfBounds w h p = false.
Proof.
  unfold fillable. destruct (outOfBounds w h p); [discriminate|done].
Qed.

Lemma fillable_passable w h data startColor fill p :
  fillable w h data startColor fill p = true ->
  passable w h data startColor p = true.
Proof. unfold fillable, passable. by intros [? _]%andb_prop. Qed.

Lemma readRgb_getPixel w data data' p :
  getPixel w data p = getPixel w data' p ->
  readRgb data (pixelIdx w p) = readRgb data' (pixelIdx w p).
Proof. unfold getPixel, readRgb. congruence. Qed.

Lemma fillable_same_pixel w h data data' startColor fill p :
  getPixel w data p = getPixel w data' p ->
  fillable w h data startColor fill p = fillable w h data' startColor fill p.
Proof.
  intros Heq. unfold fillable. by rewrite (readRgb_getPixel _ _ _ _ Heq).
Qed.

Lemma filled_isFillColor w data p fill :
  byteColor fill = true -> getPixel w data p = filledPixel fill ->
  isFillColor (readRgb data (pixelIdx w p)) fill = true.
Proof.
  intros Hfill Hpix.
  pose proof (filledPixel_isFillColor fill Hfill) as Hf.
  unfold getPixel in Hpix. unfold readRgb.
  destruct fill as [[[fr fg] fb] fa]. unfold filledPixel in Hpix.
  injection Hpix as -> -> -> _. exact Hf.
Qed.

Lemma filled_not_fillable w h data startColor fill p :
  byteColor fill = true ->
  getPixel w data p = filledPixel fill ->
  fillable w h data startColor fill p = false.
Proof.
  intros Hfill Hpix. unfold fillable.
  rewrite (filled_isFillColor w data p fill Hfill Hpix).
  by rewrite andb_false_r.
Qed.

(** The test of one iteration is [fillable] on the current buffer. *)
Lemma floodLoop_fillable fuel w h startColor fill data p rest :
  floodLoop (S fuel) w h startColor fill data (p :: rest)
  = if fillable w h data startColor fill p then
      floodLoop fuel w h startColor fill
        (colorPixel data (pixelIdx w p) fill) (rest ++ neighbours p)
    else floodLoop fuel w h startColor fill data rest.
Proof.
  rewrite floodLoop_cons. unfold fillable.
  destruct (outOfBounds w h p); [done|].
  destruct (isLine _); [done|].
  destruct (isSameArea _ _); [|done].
  by destruct (isFillColor _ _).
Qed.

Section Invariant.

Variables (w h : Z) (data0 : list Z) (startColor : rgb) (seed : point).
Variable fill : rgba.
Hypothesis Hsized : wellSized w h data0.
Hypothesis Hfill : byteColor fill = true.

Local Abbreviation ok := (fillable w h data0 startColor fill).
Local Abbreviation Inv := (FillInv w h data0 startColor seed fill).

Lemma inv_init : Inv data0 [seed].
Proof.
  split.
  - done.
  - by left.
  - intros q Hq. left. by apply list_elem_of_singleton in Hq.
  - intros _. left. by apply list_elem_of_singleton.
  - intros p q Hp Hpix. apply Reach_ok in Hp.
    by rewrite (filled_not_fillable w h data0 startColor fill p) in Hp.
Qed.

(** A pixel of the region that the loop would skip is already coloured. *)
Lemma inv_skipped data queue p :
  Inv data queue -> ok p = true ->
  fillable w h data startColor fill p = false ->
  getPixel w data p = filledPixel fill.
Proof.
  intros HI Hok Hskip.
  destruct (inv_pix _ _ _ _ _ _ _ _ HI p) as [Hsame|[_ Hdone]];
    [by eapply fillable_inBounds| |done].
  rewrite (fillable_same_pixel _ _ _ _ _ _ _ Hsame) in Hskip.
  congruence.
Qed.

Lemma inv_skip data p rest :
  Inv data (p :: rest) ->
  fillable w h data startColor fill p = false ->
  Inv data rest.
Proof.
  intros HI Hskip. split.
  - apply HI.
  - apply HI.
  - intros q Hq. apply (inv_queue _ _ _ _ _ _ _ _ HI). by right.
  - intros Hok.
    destruct (inv_seed _ _ _ _ _ _ _ _ HI Hok) as [Hin|Hdone]; [|by right].
    apply elem_of_cons in Hin as [Heq|Hin]; [subst p|by left].
    right. by eapply inv_skipped.
  - intros p' q Hp' Hpix Hq Hok.
    destruct (inv_closed _ _ _ _ _ _ _ _ HI p' q Hp' Hpix Hq Hok)
      as [Hin|Hdone]; [|by right].
    apply elem_of_cons in Hin as [Heq|Hin]; [subst q|by left].
    right. by eapply inv_skipped.
Qed.

Lemma inv_color data p rest :
  Inv data (p :: rest) ->
  fillable w h data startColor fill p = true ->
  Inv (colorPixel data (pixelIdx w p) fill) (rest ++ neighbours p).
Proof.
  intros HI Hcol.
  pose proof (fillable_inBounds _ _ _ _ _ _ Hcol) as Hp.
  assert (Hsize : wellSized w h data).
  { unfold wellSized. rewrite (inv_len _ _ _ _ _ _ _ _ HI). exact Hsized. }
  destruct (pixelIdx_in_range w h data p Hsize Hp) as [Hlo Hhi].
  assert (Hnew : getPixel w (colorPixel data (pixelIdx w p) fill) p
                 = filledPixel fill)
    by (by apply getPixel_colorPixel_same).
  assert (Hold : forall q, outOfBounds w h q = false -> q <> p ->
             getPixel w (colorPixel data (pixelIdx w p) fill) q
             = getPixel w data q).
  { intros q Hq Hne. eapply getPixel_colorPixel_other; eauto. }
  assert (Hkeep : forall q, outOfBounds w h q = false ->
             getPixel w data q = filledPixel fill ->
             getPixel w (colorPixel data (pixelIdx w p) fill) q
             = filledPixel fill).
  { intros q Hq Hpix. destruct (decide (q = p)) as [->|Hne]; [done|].
    by rewrite Hold. }
  assert (Hokp : ok p = true).
  { destruct (inv_pix _ _ _ _ _ _ _ _ HI p Hp) as [Hsame|[_ Hdone]].
    - by rewrite <- (fillable_same_pixel w h _ _ startColor fill p Hsame).
    - by rewrite (filled_not_fillable w h data startColor fill p) in Hcol. }
  assert (HRp : Reach ok seed p).
  { destruct (inv_queue _ _ _ _ _ _ _ _ HI p) as [Heq|(p' & Hp' & Hadj)];
      [by left|subst p; by apply reach_seed|by eapply reach_step]. }
  split.
  - rewrite length_colorPixel. apply HI.
  - intros q Hq. destruct (decide (q = p)) as [->|Hne]; [by right|].
    rewrite (Hold q Hq Hne). by apply HI.
  - intros q Hq. apply elem_of_app in Hq as [Hq|Hq].
    + apply (inv_queue _ _ _ _ _ _ _ _ HI). by right.
    + right. by exists p.
  - intros Hok. pose proof (fillable_inBounds _ _ _ _ _ _ Hok) as Hs.
    destruct (inv_seed _ _ _ _ _ _ _ _ HI Hok) as [Hin|Hdone].
    + apply elem_of_cons in Hin as [Heq|Hin]; [subst p; by right|].
      left. apply elem_of_app. by left.
    + right. by apply Hkeep.
  - intros p' q Hp' Hpix Hq Hok.
    pose proof (fillable_inBounds _ _ _ _ _ _ Hok) as Hqb.
    destruct (decide (p' = p)) as [->|Hne].
    { left. apply elem_of_app. by right. }
    assert (Hp'b : outOfBounds w h p' = false).
    { eapply fillable_inBounds. eapply Reach_ok. exact Hp'. }
    rewrite (Hold p' Hp'b Hne) in Hpix.
    destruct (inv_closed _ _ _ _ _ _ _ _ HI p' q Hp' Hpix Hq Hok)
      as [Hin|Hdone].
    + apply elem_of_cons in Hin as [Heq|Hin]; [subst q; by right|].
      left. apply elem_of_app. by left.
    + right. by apply Hkeep.
Qed.

Lemma floodLoop_inv fuel : forall data queue data',
  Inv data queue ->
  floodLoop fuel w h startColor fill data queue = Some data' ->
  Inv data' [].
Proof.
  induction fuel as [|fuel IH]; intros data queue data' HI Hrun.
  - destruct queue; [|discriminate]. by injection Hrun as <-.
  - destruct queue as [|p rest]; [by injection Hrun as <-|].
    rewrite floodLoop_fillable in Hrun.
    destruct (fillable w h data startColor fill p) eqn:Hcol.
    + eapply IH; [|exact Hrun]. by apply inv_color.
    + eapply IH; [|exact Hrun]. by eapply inv_skip.
Qed.

(** With the queue empty, the region is coloured and the rest is as it
    was. *)
Lemma inv_final_region data p :
  Inv data [] -> Reach ok seed p -> getPixel w data p = filledPixel fill.
Proof.
  intros HI. induction 1 as [Hs|p q Hp IH Hq Hok].
  - destruct (inv_seed _ _ _ _ _ _ _ _ HI Hs) as [Hin|Hdone]; [|done].
    by apply elem_of_nil in Hin.
  - destruct (inv_closed _ _ _ _ _ _ _ _ HI p q Hp IH Hq Hok)
      as [Hin|Hdone]; [|done].
    by apply elem_of_nil in Hin.
Qed.

Lemma inv_final_rest data p :
  Inv data [] -> outOfBounds w h p = false -> ~ Reach ok seed p ->
  getPixel w data p = getPixel w data0 p.
Proof.
  intros HI Hp Hout.
  by destruct (inv_pix _ _ _ _ _ _ _ _ HI p Hp) as [Hsame|[HR _]].
Qed.

End Invariant.

(** ** Hexadecimal digits and byte channels *)

(** Two hexadecimal digits parse to their value: a digit is no white
    space and no sign, and the second one is not the [x] of a prefix. *)
Lemma parseInt16_digits a b da db :
  hexDigit a = Some da -> hexDigit b = Some db ->
  parseInt16 (String a (String b EmptyString)) = Num (16 * da + db).
Proof.
  intros Ha Hb.
  destruct a as [[] [] [] [] [] [] [] []]; vm_compute in Ha;
    try discriminate Ha; injection Ha as <-;
    destruct b as [[] [] [] [] [] [] [] []]; vm_compute in Hb;
    try discriminate Hb; injection Hb as <-; reflexivity.
Qed.

Lemma hexDigit_range c d : hexDigit c = Some d -> 0 <= d <= 15.
Proof.
  unfold hexDigit.
  repeat (match goal with |- context [if ?b then _ else _] =>
            destruct b eqn:? end); intros [= <-]; lia.
Qed.

Lemma allHex_cons c s :
  allHex (String c s) = true ->
  (exists d, hexDigit c = Some d /\ 0 <= d <= 15) /\ allHex s = true.
Proof.
  unfold allHex. simpl. intros [Hc Hs]%andb_prop. split; [|done].
  apply bool_decide_eq_true in Hc as [d Hd]. exists d. split; [done|].
  by eapply hexDigit_range.
Qed.

(** The colours of the palette, and every [#RGB] or [#RRGGBB] string,
    parse to byte channels. *)
Lemma hexToRgba_byteColor hex :
  hexTriplet hex = true -> byteColor (hexToRgba hex) = true.
Proof.
  destruct hex as [|c digits]; [discriminate|].
  destruct c as [[] [] [] [] [] [] [] []]; try discriminate.
  unfold hexTriplet. intros [Hlen Hall]%andb_prop.
  destruct digits as [|c1 [|c2 [|c3 [|c4 [|c5 [|c6 [|c7 rest]]]]]]];
    try discriminate.
  - apply allHex_cons in Hall as [(d1 & H1 & R1) Hall].
    apply allHex_cons in Hall as [(d2 & H2 & R2) Hall].
    apply allHex_cons in Hall as [(d3 & H3 & R3) _].
    unfold hexToRgba, twice. cbn.
    rewrite (parseInt16_digits c1 c1 d1 d1), (parseInt16_digits c2 c2 d2 d2),
      (parseInt16_digits c3 c3 d3 d3) by done.
    unfold byteColor, byteChannel. lia.
  - apply allHex_cons in Hall as [(d1 & H1 & R1) Hall].
    apply allHex_cons in Hall as [(d2 & H2 & R2) Hall].
    apply allHex_cons in Hall as [(d3 & H3 & R3) Hall].
    apply allHex_cons in Hall as [(d4 & H4 & R4) Hall].
    apply allHex_cons in Hall as [(d5 & H5 & R5) Hall].
    apply allHex_cons in Hall as [(d6 & H6 & R6) _].
    unfold hexToRgba, slice. cbn.
    rewrite (parseInt16_digits c1 c2 d1 d2), (parseInt16_digits c3 c4 d3 d4),
      (parseInt16_digits c5 c6 d5 d6) by done.
    unfold byteColor, byteChannel. lia.
Qed.

(** ** The fill as a whole *)

Lemma floodFill_loop fuel w h data x y fill :
  isFillColor (readRgb data (pixelIdx w (x, y))) fill = false ->
  isLine (readRgb data (pixelIdx w (x, y))) = false ->
  floodFill fuel w h data x y fill
  = floodLoop fuel w h (readRgb data (pixelIdx w (x, y))) fill data [(x, y)].
Proof. intros Hf Hl. unfold floodFill. by rewrite Hf, Hl. Qed.

Lemma floodFill_early fuel w h data x y fill :
  isFillColor (readRgb data (pixelIdx w (x, y))) fill = true \/
  isLine (readRgb data (pixelIdx w (x, y))) = true ->
  floodFill fuel w h data x y fill = Some data.
Proof.
  intros [Hf|Hl]; unfold floodFill.
  - by rewrite Hf.
  - rewrite Hl. by destruct (isFillColor _ _).
Qed.

(** No region when the fill returns early. *)
Lemma Region_empty_early w h data x y fill p :
  isFillColor (readRgb data (pixelIdx w (x, y))) fill = true \/
  isLine (readRgb data (pixelIdx w (x, y))) = true ->
  ~ Region w h data (x, y) fill p.
Proof.
  intros Hearly HR. apply Reach_seed_ok in HR. unfold fillable in HR.
  destruct Hearly as [He|He]; rewrite He in HR; simpl in HR;
    by rewrite ?andb_false_r in HR.
Qed.

Lemma floodFill_exists w h data x y fill :
  byteColor fill = true ->
  exists data',
    floodFill (4 * (Z.to_nat h * Z.to_nat w) + 1) w h data x y fill
    = Some data'.
Proof.
  intros Hfill. unfold floodFill.
  destruct (isFillColor _ _); [eauto|]. destruct (isLine _); [eauto|].
  apply floodLoop_terminates; [done|].
  pose proof (unfilledCount_bound w h fill data). simpl. lia.
Qed.

Lemma floodFill_fuel_mono fuel fuel' w h data x y fill data' :
  floodFill fuel w h data x y fill = Some data' -> (fuel <= fuel')%nat ->
  floodFill fuel' w h data x y fill = Some data'.
Proof.
  unfold floodFill. destruct (isFillColor _ _); [done|].
  destruct (isLine _); [done|]. apply floodLoop_fuel_mono.
Qed.

Lemma floodFill_inv fuel w h data x y fill data' :
  wellSized w h data -> byteColor fill = true ->
  isFillColor (readRgb data (pixelIdx w (x, y))) fill = false ->
  isLine (readRgb data (pixelIdx w (x, y))) = false ->
  floodFill fuel w h data x y fill = Some data' ->
  FillInv w h data (readRgb data (pixelIdx w (x, y))) (x, y) fill data' [].
Proof.
  intros Hsize Hfill Hf Hl Hrun. rewrite floodFill_loop in Hrun by done.
  eapply floodLoop_inv; [done|done| |exact Hrun]. by apply inv_init.
Qed.

(** C2. For every surface, seed and fill colour with byte channels, the
    loop of the flood fill ends: it makes at most four iterations per
    pixel of the grid plus one, since a coloured pixel then holds the fill
    colour and is skipped when met again. In particular the click handler
    returns for every canvas, click and [#RGB] or [#RRGGBB] colour. *)
Theorem floodFill_terminates :
  (forall w h data x y fill,
      byteColor fill = true ->
      exists data',
        forall fuel, (4 * (Z.to_nat h * Z.to_nat w) + 1 <= fuel)%nat ->
          floodFill fuel w h data x y fill = Some data') /\
  (forall canvasRef color cx cy calls,
      hexTriplet color = true ->
      exists fuel r,
        handleCanvasClick fuel canvasRef color cx cy calls = Some r).
Proof.
  split.
  - intros w h data x y fill Hfill.
    destruct (floodFill_exists w h data x y fill Hfill) as [data' Hrun].
    exists data'. intros fuel Hle. by eapply floodFill_fuel_mono.
  - intros canvasRef color cx cy calls Hhex. unfold handleCanvasClick.
    destruct canvasRef as [canvas|]; [|by exists O, (None, calls)].
    destruct (context2d canvas); cbn [negb];
      [|by exists O, (Some canvas, calls)].
    destruct (clickPoint canvas cx cy) as [x y].
    destruct (floodFill_exists (width canvas) (height canvas) (pixels canvas)
                x y (hexToRgba color) (hexToRgba_byteColor color Hhex))
      as [data' Hrun].
    eexists _, _. by rewrite Hrun.
Qed.

Lemma floodFill_terminates_witness :
  (exists data',
     forall fuel, (4 * (Z.to_nat 3 * Z.to_nat 3) + 1 <= fuel)%nat ->
       floodFill fuel 3 3 framed_data 1 1 tomato = Some data') /\
  (exists fuel r,
     handleCanvasClick fuel (Some line_canvas) "#FF6347" (1 # 2)%Q (1 # 2)%Q 0
     = Some r).
Proof.
  split.
  - apply (proj1 floodFill_terminates). reflexivity.
  - apply (proj2 floodFill_terminates). reflexivity.
Defined.

(** The hypothesis on the fill colour is needed: with a [NaN] channel a
    coloured pixel is never equal to the fill colour, and two neighbours
    within tolerance keep queueing each other. *)
Lemma floodLoop_nan_fill_runs_on fuel : forall r0 r1 queue,
  (r0 = 0 \/ r0 = 10) -> (r1 = 0 \/ r1 = 10) ->
  ((0, 0) ∈ queue \/ (1, 0) ∈ queue) ->
  floodLoop fuel 2 1 (Num 10, Num 200, Num 200) nan_fill
    (pair_data r0 r1) queue = None.
Proof.
  induction fuel as [|fuel IH]; intros r0 r1 queue H0 H1 Hq.
  - destruct queue; [|done].
    destruct Hq as [Hq|Hq]; by apply elem_of_nil in Hq.
  - destruct queue as [|p rest].
    { destruct Hq as [Hq|Hq]; by apply elem_of_nil in Hq. }
    rewrite floodLoop_fillable.
    destruct (decide (p = (0, 0))) as [->|Hp0];
      [|destruct (decide (p = (1, 0))) as [->|Hp1]].
    + replace (fillable 2 1 (pair_data r0 r1) (Num 10, Num 200, Num 200)
                 nan_fill (0, 0)) with true
        by (destruct H0 as [-> | ->]; reflexivity).
      change (colorPixel (pair_data r0 r1) (pixelIdx 2 (0, 0)) nan_fill)
        with (pair_data 0 r1).
      apply IH; [by left|done|]. right. apply elem_of_app. right.
      apply list_elem_of_here.
    + replace (fillable 2 1 (pair_data r0 r1) (Num 10, Num 200, Num 200)
                 nan_fill (1, 0)) with true
        by (destruct H1 as [-> | ->]; reflexivity).
      change (colorPixel (pair_data r0 r1) (pixelIdx 2 (1, 0)) nan_fill)
        with (pair_data r0 0).
      apply IH; [done|by left|]. left. apply elem_of_app. right.
      apply list_elem_of_further, list_elem_of_here.
    + assert (Hout : outOfBounds 2 1 p = true).
      { destruct (outOfBounds 2 1 p) eqn:Hb; [done|].
        apply outOfBounds_false in Hb. destruct p as [px py]. simpl in Hb.
        assert (px = 0 \/ px = 1) as [-> | ->] by lia;
          assert (py = 0) as -> by lia; congruence. }
      unfold fillable. rewrite Hout. simpl. apply IH; [done|done|].
      destruct Hq as [Hq|Hq]; apply elem_of_cons in Hq as [Hq|Hq];
        try congruence; [by left|by right].
Qed.

Lemma floodFill_nan_fill_runs_on fuel :
  floodFill fuel 2 1 (pair_data 10 10) 0 0 nan_fill = None.
Proof.
  rewrite floodFill_loop by reflexivity.
  apply floodLoop_nan_fill_runs_on; [by right|by right|].
  left. apply list_elem_of_here.
Qed.

(** C3. A click on a line pixel (red, green and blue below 128) changes
    no pixel: the fill returns the buffer as it is, and the click handler
    leaves the canvas as it is. *)
Theorem floodFill_line_click :
  (forall fuel w h data x y fill,
      isLine (readRgb data (pixelIdx w (x, y))) = true ->
      floodFill fuel w h data x y fill = Some data) /\
  (forall fuel canvas color cx cy calls,
      context2d canvas = true ->
      isLine (readRgb (pixels canvas)
                (pixelIdx (width canvas) (clickPoint canvas cx cy))) = true ->
      exists calls',
        handleCanvasClick fuel (Some canvas) color cx cy calls
        = Some (Some canvas, calls')).
Proof.
  split.
  - intros. apply floodFill_early. by right.
  - intros fuel canvas color cx cy calls Hctx Hl. unfold handleCanvasClick.
    rewrite Hctx. cbn [negb]. destruct (clickPoint canvas cx cy) as [x y].
    rewrite floodFill_early by (by right).
    exists (S calls). by destruct canvas.
Qed.

Lemma floodFill_line_click_witness :
  floodFill 0 3 3 framed_data 0 0 tomato = Some framed_data.
Proof. apply (proj1 floodFill_line_click). reflexivity. Defined.

(** C10. A seed outside the surface changes no pixel: whatever the read
    of the start colour gives, the only queue entry is dropped by the
    bounds test. *)
Theorem floodFill_seed_out_of_bounds fuel w h data x y fill :
  outOfBounds w h (x, y) = true -> (0 < fuel)%nat ->
  floodFill fuel w h data x y fill = Some data.
Proof.
  intros Hout Hfuel. unfold floodFill.
  destruct (isFillColor _ _); [done|]. destruct (isLine _); [done|].
  destruct fuel as [|fuel]; [lia|]. rewrite floodLoop_cons, Hout.
  apply floodLoop_nil.
Qed.

Lemma floodFill_seed_out_of_bounds_witness :
  floodFill 1 3 3 framed_data 3 1 tomato = Some framed_data.
Proof. apply floodFill_seed_out_of_bounds; [reflexivity|lia]. Defined.

(** ** The coloured region *)

Lemma Region_ReachSpec w h data seed fill p :
  Region w h data seed fill p -> ReachSpec w h data seed p.
Proof. apply Reach_mono. intros q. apply fillable_passable. Qed.

Lemma Region_inside w h data seed fill (inside : point -> Prop) p :
  inside seed -> enclosedByLines w h data inside ->
  Region w h data seed fill p -> ~ ~ inside p.
Proof.
  intros Hseed Hclosed. induction 1 as [_|p q _ IH Hq Hok]; [tauto|].
  intros Hnq. apply IH. intros Hp.
  unfold fillable in Hok.
  destruct (Hclosed p q Hp Hq Hnq) as [Hb|Hl]; rewrite ?Hb, ?Hl in Hok;
    simpl in Hok; by rewrite ?andb_false_r in Hok.
Qed.

(** C1, as the code has it. On a surface with its full buffer and for a
    fill colour with byte channels, the fill ends, and afterwards every
    pixel that is 4-connected-reachable from the seed through pixels that
    are in bounds, not line pixels, within tolerance 32 of the seed colour
    and not already the fill colour holds the fill colour, while every
    other pixel of the surface is as before. That region lies inside the
    region of the specification, and a fill started inside a set of pixels
    closed off by line pixels and the edge of the surface changes nothing
    outside the set. *)
Theorem floodFill_fills_region w h data x y fill :
  wellSized w h data -> byteColor fill = true ->
  (exists fuel data', floodFill fuel w h data x y fill = Some data') /\
  forall fuel data',
    floodFill fuel w h data x y fill = Some data' ->
    wellSized w h data' /\
    (forall p, Region w h data (x, y) fill p ->
               getPixel w data' p = filledPixel fill) /\
    (forall p, outOfBounds w h p = false -> ~ Region w h data (x, y) fill p ->
               getPixel w data' p = getPixel w data p) /\
    (forall p, Region w h data (x, y) fill p -> ReachSpec w h data (x, y) p) /\
    (forall inside : point -> Prop,
        inside (x, y) -> enclosedByLines w h data inside ->
        forall p, outOfBounds w h p = false -> ~ inside p ->
                  getPixel w data' p = getPixel w data p).
Proof.
  intros Hsize Hfill. split.
  { destruct (floodFill_exists w h data x y fill Hfill) as [data' Hrun]. eauto. }
  intros fuel data' Hrun.
  assert (Hmain : wellSized w h data' /\
            (forall p, Region w h data (x, y) fill p ->
                       getPixel w data' p = filledPixel fill) /\
            (forall p, outOfBounds w h p = false ->
                       ~ Region w h data (x, y) fill p ->
                       getPixel w data' p = getPixel w data p)).
  { destruct (isFillColor (readRgb data (pixelIdx w (x, y))) fill) eqn:Hf;
      [|destruct (isLine (readRgb data (pixelIdx w (x, y)))) eqn:Hl].
    - rewrite floodFill_early in Hrun by (by left). injection Hrun as <-.
      split; [done|]. split; [|done].
      intros p HR. by apply Region_empty_early in HR; [|left].
    - rewrite floodFill_early in Hrun by (by right). injection Hrun as <-.
      split; [done|]. split; [|done].
      intros p HR. by apply Region_empty_early in HR; [|right].
    - pose proof (floodFill_inv _ _ _ _ _ _ _ _ Hsize Hfill Hf Hl Hrun) as HI.
      split; [|split].
      + unfold wellSized. rewrite (inv_len _ _ _ _ _ _ _ _ HI). exact Hsize.
      + intros p HR. eapply inv_final_region; [exact HI|exact HR].
      + intros p Hp HR. eapply inv_final_rest; [exact HI|exact Hp|exact HR]. }
  destruct Hmain as (Hsz & Hin & Hout).
  split; [done|]. split; [done|]. split; [done|]. split.
  - intros p. apply Region_ReachSpec.
  - intros inside Hseed Hclosed p Hp Hnp. apply Hout; [done|].
    intros HR. by apply (Region_inside _ _ _ _ _ _ _ Hseed Hclosed HR).
Qed.

Lemma floodFill_fills_region_witness :
  exists fuel data', floodFill fuel 3 3 framed_data 1 1 tomato = Some data'.
Proof.
  exact (proj1 (floodFill_fills_region 3 3 framed_data 1 1 tomato
                  eq_refl eq_refl)).
Defined.

(** C1 as the specification words it fails: in the row off-white, white,
    off-white filled with white from its first pixel, the last pixel is
    reachable from the seed over pixels that are neither lines nor out of
    tolerance, the clicked pixel is no line pixel, and yet the last pixel
    keeps its colour, because the middle pixel already has the fill colour
    and is not expanded. *)
Lemma floodFill_stops_at_fill_colour :
  hexToRgba "#FFFFFF" = row_fill /\
  isLine (readRgb row_data (pixelIdx 3 (0, 0))) = false /\
  ReachSpec 3 1 row_data (0, 0) (2, 0) /\
  floodFill 5 3 1 row_data 0 0 row_fill
  = Some [255; 255; 255; 255;  255; 255; 255; 255;  250; 250; 250; 255] /\
  getPixel 3 [255; 255; 255; 255;  255; 255; 255; 255;  250; 250; 250; 255]
    (2, 0) <> filledPixel row_fill.
Proof.
  split; [reflexivity|]. split; [reflexivity|].
  split; [|split; [reflexivity|discriminate]].
  apply reach_step with (p := (1, 0)); [|apply list_elem_of_here|reflexivity].
  apply reach_step with (p := (0, 0)); [|apply list_elem_of_here|reflexivity].
  apply reach_seed. reflexivity.
Qed.

(** ** Idempotence *)

(** C4. Filling twice from the same point with the same colour gives the
    surface of the first fill: the fill ends, and on its result a second
    fill returns that result unchanged. *)
Theorem floodFill_idempotent w h data x y fill :
  wellSized w h data -> byteColor fill = true ->
  (exists fuel data1, floodFill fuel w h data x y fill = Some data1) /\
  forall fuel data1,
    floodFill fuel w h data x y fill = Some data1 ->
    forall fuel', (0 < fuel')%nat ->
      floodFill fuel' w h data1 x y fill = Some data1.
Proof.
  intros Hsize Hfill. split.
  { destruct (floodFill_exists w h data x y fill Hfill) as [data' Hrun]. eauto. }
  intros fuel data1 Hrun fuel' Hfuel'.
  destruct (isFillColor (readRgb data (pixelIdx w (x, y))) fill) eqn:Hf;
    [|destruct (isLine (readRgb data (pixelIdx w (x, y)))) eqn:Hl].
  - rewrite floodFill_early in Hrun by (by left). injection Hrun as <-.
    apply floodFill_early. by left.
  - rewrite floodFill_early in Hrun by (by right). injection Hrun as <-.
    apply floodFill_early. by right.
  - destruct (fillable w h data (readRgb data (pixelIdx w (x, y))) fill (x, y))
      eqn:Hseed.
    + pose proof (floodFill_inv _ _ _ _ _ _ _ _ Hsize Hfill Hf Hl Hrun) as HI.
      apply floodFill_early. left. apply filled_isFillColor; [done|].
      eapply inv_final_region; [exact HI|]. by apply reach_seed.
    + rewrite floodFill_loop in Hrun by done.
      destruct fuel as [|fuel]; [discriminate|].
      rewrite floodLoop_fillable, Hseed, floodLoop_nil in Hrun.
      injection Hrun as <-. rewrite floodFill_loop by done.
      destruct fuel' as [|fuel']; [lia|].
      by rewrite floodLoop_fillable, Hseed, floodLoop_nil.
Qed.

Lemma floodFill_idempotent_witness :
  exists fuel data1, floodFill fuel 3 3 framed_data 1 1 tomato = Some data1.
Proof.
  exact (proj1 (floodFill_idempotent 3 3 framed_data 1 1 tomato
                  eq_refl eq_refl)).
Defined.

(** ** What [hexToRgba] returns *)

Example hexToRgba_tomato : hexToRgba "#FF6347" = tomato.
Proof. reflexivity. Qed.

Example hexToRgba_not_hex : hexToRgba "#GGC8C8" = nan_fill.
Proof. reflexivity. Qed.

Example hexToRgba_signed :
  hexToRgba "#-f 1+2" = (Num (-15), Num 1, Num 2, Num 255).
Proof. reflexivity. Qed.

(** C6. [hexToRgba] on [#RGB] gives each digit doubled, on [#RRGGBB] the
    value of each pair of digits, on a string of any other length
    (0,0,0,255); [#FFF] is (255,255,255,255) and [#1E90FF] is
    (30,144,255,255); the alpha channel is always 255. *)
Theorem hexToRgba_spec :
  (forall c1 c2 c3 d1 d2 d3,
      hexDigit c1 = Some d1 -> hexDigit c2 = Some d2 ->
      hexDigit c3 = Some d3 ->
      hexToRgba (String "#" (String c1 (String c2 (String c3 EmptyString))))
      = (Num (16 * d1 + d1), Num (16 * d2 + d2), Num (16 * d3 + d3),
         Num 255)) /\
  (forall c1 c2 c3 c4 c5 c6 d1 d2 d3 d4 d5 d6,
      hexDigit c1 = Some d1 -> hexDigit c2 = Some d2 ->
      hexDigit c3 = Some d3 -> hexDigit c4 = Some d4 ->
      hexDigit c5 = Some d5 -> hexDigit c6 = Some d6 ->
      hexToRgba
        (String "#" (String c1 (String c2 (String c3 (String c4
           (String c5 (String c6 EmptyString)))))))
      = (Num (16 * d1 + d2), Num (16 * d3 + d4), Num (16 * d5 + d6),
         Num 255)) /\
  (forall hex,
      String.length hex <> 4%nat -> String.length hex <> 7%nat ->
      hexToRgba hex = (Num 0, Num 0, Num 0, Num 255)) /\
  hexToRgba "#FFF" = (Num 255, Num 255, Num 255, Num 255) /\
  hexToRgba "#1E90FF" = (Num 30, Num 144, Num 255, Num 255) /\
  (forall hex, snd (hexToRgba hex) = Num 255).
Proof.
  split; [|split; [|split; [|split; [|split]]]].
  - intros c1 c2 c3 d1 d2 d3 H1 H2 H3. unfold hexToRgba, twice. cbn.
    by rewrite (parseInt16_digits c1 c1 d1 d1), (parseInt16_digits c2 c2 d2 d2),
      (parseInt16_digits c3 c3 d3 d3).
  - intros c1 c2 c3 c4 c5 c6 d1 d2 d3 d4 d5 d6 H1 H2 H3 H4 H5 H6.
    unfold hexToRgba, slice. cbn.
    by rewrite (parseInt16_digits c1 c2 d1 d2), (parseInt16_digits c3 c4 d3 d4),
      (parseInt16_digits c5 c6 d5 d6).
  - intros hex H4 H7. unfold hexToRgba.
    destruct (Nat.eqb_spec (String.length hex) 4); [done|].
    by destruct (Nat.eqb_spec (String.length hex) 7).
  - reflexivity.
  - reflexivity.
  - intros hex. unfold hexToRgba.
    destruct (String.length hex =? 4)%nat; [done|].
    by destruct (String.length hex =? 7)%nat.
Qed.

Lemma hexToRgba_spec_witness :
  hexToRgba "#a0c" = (Num 170, Num 0, Num 204, Num 255) /\
  hexToRgba "#FF6347" = (Num 255, Num 99, Num 71, Num 255) /\
  hexToRgba "tomato" = (Num 0, Num 0, Num 0, Num 255).
Proof.
  split; [|split].
  - exact (proj1 hexToRgba_spec "a"%char "0"%char "c"%char 10 0 12
             eq_refl eq_refl eq_refl).
  - exact (proj1 (proj2 hexToRgba_spec)
             "F"%char "F"%char "6"%char "3"%char "4"%char "7"%char
             15 15 6 3 4 7
             eq_refl eq_refl eq_refl eq_refl eq_refl eq_refl).
  - apply (proj1 (proj2 (proj2 hexToRgba_spec))); simpl; lia.
Defined.

(** ** Coordinate mapping *)




(** ** The stroke state *)

Lemma getCoordinates_None canvasRef e :
  getCoordinates canvasRef e = None <->
  canvasRef = None \/ e = TouchEvent [].
Proof.
  unfold getCoordinates. destruct canvasRef as [canvas|]; [|tauto].
  destruct e as [cx cy|[|[tx ty] ts]]; split; intros H; try done.
  - by destruct H.
  - by right.
  - by destruct H.
Qed.

(** C9. [draw] does nothing when no stroke is in progress or when the
    pointer cannot be mapped to the surface (no canvas, or a touch event
    without touches): the stroke state and the canvas come back as they
    were, and the function has no other outcome. *)
Theorem draw_noop :
  forall strokeLine canvasRef e st,
    isDrawing st = false \/ canvasRef = None \/ e = TouchEvent [] ->
    draw strokeLine canvasRef e st = (st, canvasRef).
Proof.
  intros strokeLine canvasRef e st [Hidle|Hmap]; unfold draw.
  - by rewrite Hidle.
  - apply getCoordinates_None in Hmap.
    destruct (isDrawing st); [|done]. cbn [negb].
    destruct canvasRef as [canvas|]; [|done]. by rewrite Hmap.
Qed.

Lemma draw_noop_witness :
  draw (fun _ _ data _ _ => data) (Some line_canvas) (TouchEvent [])
    {| isDrawing := true; lastPosition := Some (0, 0)%Q |}
  = ({| isDrawing := true; lastPosition := Some (0, 0)%Q |},
     Some line_canvas).
Proof. apply draw_noop. right. right. reflexivity. Defined.

(** ** The report callback *)

Lemma setPixels_same canvas : setPixels canvas (pixels canvas) = canvas.
Proof. by destruct canvas. Qed.

(** C5 as the specification words it fails: a click on the black pixel of
    [line_canvas] leaves the canvas as it was, and [onColor] has been
    called once all the same. *)
Lemma handleCanvasClick_reports_without_change :
  handleCanvasClick 1 (Some line_canvas) "#FF6347" (1 # 2)%Q (1 # 2)%Q 0
  = Some (Some line_canvas, 1%nat).
Proof. reflexivity. Qed.

(** C5, as the code has it. The click handler calls [onColor] once
    after every click it handles with a canvas and a 2D context, whether
    or not the fill changed a pixel, and not at all when the canvas or
    its context is missing; with a fill colour of byte channels the
    handler does return. *)
Theorem handleCanvasClick_reports canvasRef color cx cy calls :
  (forall fuel r calls',
      handleCanvasClick fuel canvasRef color cx cy calls = Some (r, calls') ->
      calls' = if hasContext canvasRef then S calls else calls) /\
  (byteColor (hexToRgba color) = true ->
   exists fuel r,
     handleCanvasClick fuel canvasRef color cx cy calls
     = Some (r, if hasContext canvasRef then S calls else calls)).
Proof.
  unfold handleCanvasClick, hasContext.
  destruct canvasRef as [canvas|]; [|split; [by intros ??? [= _ <-]|by exists O, None]].
  destruct (context2d canvas); cbn [negb];
    [|split; [by intros ??? [= _ <-]|by exists O, (Some canvas)]].
  destruct (clickPoint canvas cx cy) as [x y]. split.
  - intros fuel r calls'. destruct (floodFill _ _ _ _ _ _ _); [|done].
    by intros [= _ <-].
  - intros Hfill.
    destruct (floodFill_exists (width canvas) (height canvas) (pixels canvas)
                x y (hexToRgba color) Hfill) as [data' Hrun].
    eexists _, _. by rewrite Hrun.
Qed.

Lemma handleCanvasClick_reports_witness :
  exists fuel r,
    handleCanvasClick fuel (Some line_canvas) "#FF6347" (1 # 2)%Q (1 # 2)%Q 0
    = Some (r, 1%nat).
Proof.
  exact (proj2 (handleCanvasClick_reports (Some line_canvas) "#FF6347"
                  (1 # 2)%Q (1 # 2)%Q 0%nat) eq_refl).
Defined.

(** ** Clearing and the blank test *)

Lemma toUint32Array_white n :
  toUint32Array (mjoin (replicate n [255; 255; 255; 255]))
  = replicate n whitePixel.
Proof. induction n as [|n IH]; [done|]. simpl. by rewrite IH. Qed.

Lemma existsb_replicate {A} (f : A -> bool) n x :
  f x = false -> existsb f (replicate n x) = false.
Proof. intros Hx. induction n as [|n IH]; simpl; [done|by rewrite Hx]. Qed.

Lemma wellSized_fillRectAll w h r g b a :
  0 <= w * h -> wellSized w h (fillRectAll w h r g b a).
Proof.
  intros Hwh. unfold wellSized, fillRectAll.
  assert (Hlen : forall n, length (mjoin (replicate n [r; g; b; a]))
                           = (4 * n)%nat).
  { induction n as [|n IH]; [done|]. simpl. rewrite IH. lia. }
  rewrite Hlen. lia.
Qed.

(** The word of the view at [k] is made of the four bytes from [4 * k]. *)
Lemma toUint32Array_lookup k : forall data b0 b1 b2 b3,
  data !! (4 * k)%nat = Some b0 -> data !! (4 * k + 1)%nat = Some b1 ->
  data !! (4 * k + 2)%nat = Some b2 -> data !! (4 * k + 3)%nat = Some b3 ->
  toUint32Array data !! k
  = Some (Z.lor b0 (Z.lor (Z.shiftl b1 8)
                      (Z.lor (Z.shiftl b2 16) (Z.shiftl b3 24)))).
Proof.
  induction k as [|k IH]; intros data b0 b1 b2 b3 H0 H1 H2 H3.
  - destruct data as [|x0 [|x1 [|x2 [|x3 rest]]]]; try discriminate.
    simpl in *. congruence.
  - replace (4 * S k)%nat with (S (S (S (S (4 * k))))) in * by lia.
    destruct data as [|x0 [|x1 [|x2 [|x3 rest]]]]; try discriminate.
    simpl in *. by apply IH.
Qed.

Lemma typedGet_Num_lookup data i b :
  typedGet data i = Num b -> 0 <= i /\ data !! Z.to_nat i = Some b.
Proof.
  unfold typedGet. destruct (Z.ltb_spec i 0); [discriminate|].
  destruct (data !! Z.to_nat i); [|discriminate]. intros [= ->]. done.
Qed.

(** A pixel that is not opaque white makes the blank test fail. *)
Lemma black_pixel_not_blank w data p :
  getPixel w data p = (Num 0, Num 0, Num 0, Num 255) ->
  existsb (fun pixel => negb (pixel =? whitePixel)) (toUint32Array data)
  = true.
Proof.
  unfold getPixel, pixelIdx. set (m := snd p * w + fst p).
  intros [= H0 H1 H2 H3].
  apply typedGet_Num_lookup in H0 as [Hm H0], H1 as [_ H1], H2 as [_ H2],
    H3 as [_ H3].
  replace (Z.to_nat (m * 4)) with (4 * Z.to_nat m)%nat in H0 by lia.
  replace (Z.to_nat (m * 4 + 1)) with (4 * Z.to_nat m + 1)%nat in H1 by lia.
  replace (Z.to_nat (m * 4 + 2)) with (4 * Z.to_nat m + 2)%nat in H2 by lia.
  replace (Z.to_nat (m * 4 + 3)) with (4 * Z.to_nat m + 3)%nat in H3 by lia.
  pose proof (toUint32Array_lookup _ _ _ _ _ _ H0 H1 H2 H3) as Hword.
  apply existsb_exists. eexists. split.
  - apply list_elem_of_In. eapply list_elem_of_lookup_2. exact Hword.
  - reflexivity.
Qed.

Lemma dotStroke_paintsStart : paintsStart dotStroke.
Proof.
  intros w h data a b Hsize [Hx Hy] _. unfold dotStroke.
  set (p := (Qfloor (fst a), Qfloor (snd a))).
  assert (Hp : outOfBounds w h p = false) by (by apply outOfBounds_false).
  destruct (pixelIdx_in_range w h data p Hsize Hp) as [Hlo Hhi].
  by rewrite getPixel_colorPixel_same.
Qed.

(** One segment on a cleared canvas, for a rasteriser of which the
    contract [paintsStart] is assumed: the blank test sees it. What the
    rasteriser of the platform paints is not in the sources, so this says
    nothing about strokes without that assumption. *)
Lemma stroke_segment_not_blank :
  forall strokeLine canvas e1 e2 st c1 c2,
    paintsStart strokeLine ->
    context2d canvas = true ->
    getCoordinates (Some canvas) e1 = Some c1 ->
    getCoordinates (Some canvas) e2 = Some c2 ->
    onSurface (width canvas) (height canvas) c1 ->
    nonDegenerate c1 c2 ->
    isCanvasBlank
      (snd (draw strokeLine (clearCanvas (Some canvas)) e2
              (startDrawing (clearCanvas (Some canvas)) e1 st)))
    = false.
Proof.
  intros strokeLine canvas e1 e2 st c1 c2 Hpaint Hctx H1 H2 Hon Hnd.
  unfold clearCanvas. rewrite Hctx.
  set (cleared := setPixels canvas _).
  assert (Hc : forall e, getCoordinates (Some cleared) e
                         = getCoordinates (Some canvas) e) by done.
  unfold startDrawing, draw. rewrite !Hc, H1, H2. simpl. rewrite Hctx.
  simpl. rewrite Hctx. simpl.
  assert (Hsize : wellSized (width canvas) (height canvas)
            (fillRectAll (width canvas) (height canvas) 255 255 255 255)).
  { apply wellSized_fillRectAll. destruct Hon. nia. }
  pose proof (Hpaint _ _ _ c1 c2 Hsize Hon Hnd) as Hblack.
  apply black_pixel_not_blank in Hblack. by rewrite Hblack.
Qed.

(** * Further properties *)

(** ** What a fill leaves alone, whatever the colour *)

Lemma floodLoop_length fuel w h startColor fill : forall data queue data',
  floodLoop fuel w h startColor fill data queue = Some data' ->
  length data' = length data.
Proof.
  induction fuel as [|fuel IH]; intros data queue data' Hrun.
  - destruct queue; [|discriminate]. by injection Hrun as <-.
  - destruct queue as [|p rest]; [by injection Hrun as <-|].
    rewrite floodLoop_fillable in Hrun.
    destruct (fillable w h data startColor fill p).
    + apply IH in Hrun. by rewrite Hrun, length_colorPixel.
    + by apply IH in Hrun.
Qed.

(** Pixels the loop would not colour on the buffer it started from are
    never written, also when the fill colour has channels that are no
    bytes. *)
Lemma floodLoop_frame fuel w h data0 startColor fill :
  forall data queue data',
    (forall p, outOfBounds w h p = false ->
               fillable w h data0 startColor fill p = false ->
               getPixel w data p = getPixel w data0 p) ->
    floodLoop fuel w h startColor fill data queue = Some data' ->
    forall p, outOfBounds w h p = false ->
              fillable w h data0 startColor fill p = false ->
              getPixel w data' p = getPixel w data0 p.
Proof.
  induction fuel as [|fuel IH]; intros data queue data' Hkept Hrun.
  - destruct queue; [|discriminate]. by injection Hrun as <-.
  - destruct queue as [|q rest]; [by injection Hrun as <-|].
    rewrite floodLoop_fillable in Hrun.
    destruct (fillable w h data startColor fill q) eqn:Hq.
    + eapply IH; [|exact Hrun]. intros p Hp Hno.
      assert (Hne : q <> p).
      { intros ->. specialize (Hkept p Hp Hno).
        rewrite (fillable_same_pixel _ _ _ _ _ _ _ Hkept) in Hq. congruence. }
      rewrite <- (Hkept p Hp Hno).
      eapply getPixel_colorPixel_other; [|exact Hp|exact Hne].
      by eapply fillable_inBounds.
    + eapply IH; [exact Hkept|exact Hrun].
Qed.

(** X1. For every fill colour, every seed and every buffer: a fill keeps
    the size of the buffer and changes no pixel that was out of
    tolerance, already the fill colour or a line pixel when it started;
    in particular no line pixel is ever painted over. *)
Theorem floodFill_frame_any_colour fuel w h data x y fill data' :
  floodFill fuel w h data x y fill = Some data' ->
  length data' = length data /\
  (forall p, outOfBounds w h p = false ->
             fillable w h data (readRgb data (pixelIdx w (x, y))) fill p
             = false ->
             getPixel w data' p = getPixel w data p) /\
  (forall p, outOfBounds w h p = false ->
             isLine (readRgb data (pixelIdx w p)) = true ->
             getPixel w data' p = getPixel w data p).
Proof.
  intros Hrun.
  assert (Hframe : forall p, outOfBounds w h p = false ->
            fillable w h data (readRgb data (pixelIdx w (x, y))) fill p
            = false ->
            getPixel w data' p = getPixel w data p).
  { unfold floodFill in Hrun.
    destruct (isFillColor _ _); [by injection Hrun as <-|].
    destruct (isLine _); [by injection Hrun as <-|].
    eapply floodLoop_frame; [|exact Hrun]. done. }
  split; [|split; [exact Hframe|]].
  - unfold floodFill in Hrun.
    destruct (isFillColor _ _); [by injection Hrun as <-|].
    destruct (isLine _); [by injection Hrun as <-|].
    by eapply floodLoop_length.
  - intros p Hp Hline. apply Hframe; [done|].
    unfold fillable. rewrite Hline. by rewrite andb_false_r.
Qed.

Lemma floodFill_frame_any_colour_witness :
  getPixel 3 [0; 0; 0; 255;  0; 0; 0; 255;      0; 0; 0; 255;
              0; 0; 0; 255;  0; 200; 200; 255;  0; 0; 0; 255;
              0; 0; 0; 255;  0; 0; 0; 255;      0; 0; 0; 255] (0, 1)
  = getPixel 3 framed_data (0, 1).
Proof.
  apply (floodFill_frame_any_colour 5 3 3 framed_data 1 1 nan_fill);
    reflexivity.
Defined.

(** ** Filling again *)

Lemma fillable_true w h data startColor fill p :
  fillable w h data startColor fill p = true ->
  outOfBounds w h p = false /\
  isLine (readRgb data (pixelIdx w p)) = false /\
  isSameArea (readRgb data (pixelIdx w p)) startColor = true /\
  isFillColor (readRgb data (pixelIdx w p)) fill = false.
Proof.
  unfold fillable.
  intros [[[Hb Hl]%andb_prop Hs]%andb_prop Hf]%andb_prop.
  apply negb_true_iff in Hb, Hl, Hf. done.
Qed.

Lemma Reach_mono_on (ok ok' : point -> bool) seed p :
  (forall q, Reach ok seed q -> ok' q = true) ->
  Reach ok seed p -> Reach ok' seed p.
Proof.
  intros Himp. induction 1 as [Hs|p q Hp IH Hq Hok].
  - apply reach_seed. apply Himp. by apply reach_seed.
  - eapply reach_step; [exact IH|exact Hq|].
    apply Himp. by eapply reach_step.
Qed.

Lemma byteColor_Num fill :
  byteColor fill = true ->
  exists r g b, rgbOf fill = (Num r, Num g, Num b) /\
    let '(fr, fg, fb, _) := fill in
    (Num (toUint8Clamp fr), Num (toUint8Clamp fg), Num (toUint8Clamp fb))
    = (Num r, Num g, Num b).
Proof.
  destruct fill as [[[fr fg] fb] fa]. unfold byteColor.
  intros [[Hr Hg]%andb_prop Hb]%andb_prop.
  rewrite !byteChannel_clamp by done.
  destruct fr, fg, fb; try discriminate. by eexists _, _, _.
Qed.

(** The colour channels of a pixel coloured with a byte colour. *)
Lemma filled_readRgb w data p fill :
  byteColor fill = true -> getPixel w data p = filledPixel fill ->
  readRgb data (pixelIdx w p) = rgbOf fill.
Proof.
  intros Hfill Hpix. destruct (byteColor_Num fill Hfill) as (r & g & b & Hrgb & Hc).
  unfold getPixel in Hpix. unfold readRgb.
  destruct fill as [[[fr fg] fb] fa]. unfold filledPixel in Hpix.
  injection Hpix as -> -> -> _. rewrite Hc. by rewrite Hrgb.
Qed.

(** After a fill with colour [a], the pixels of its region are one area
    for the next fill. *)
Lemma Region_refill w h data seed a b data1 p :
  byteColor a = true ->
  isLine (rgbOf a) = false -> isFillColor (rgbOf a) b = false ->
  (forall q, Region w h data seed a q -> getPixel w data1 q = filledPixel a) ->
  Region w h data seed a p -> Region w h data1 seed b p.
Proof.
  intros Ha Hline Hdiff Hfilled HR. unfold Region.
  assert (Hseed : Region w h data seed a seed).
  { apply reach_seed. by eapply Reach_seed_ok. }
  rewrite (filled_readRgb w data1 seed a Ha (Hfilled seed Hseed)).
  revert HR. apply Reach_mono_on. intros q Hq.
  pose proof (fillable_inBounds _ _ _ _ _ _ (Reach_ok _ _ _ Hq)) as Hqb.
  unfold fillable.
  rewrite (filled_readRgb w data1 q a Ha (Hfilled q Hq)), Hqb, Hline, Hdiff.
  destruct (byteColor_Num a Ha) as (r & g & bl & -> & _).
  by rewrite isSameArea_refl.
Qed.

(** X3. Filling a region that was just filled recolours all of it: after
    a fill with a colour [a] that is no line colour, a fill from the same
    seed with a different colour [b] gives every pixel of the first
    region the colour [b]. *)
Theorem floodFill_recolours fuel1 fuel2 w h data x y a b data1 data2 :
  wellSized w h data -> byteColor a = true -> byteColor b = true ->
  isLine (rgbOf a) = false -> isFillColor (rgbOf a) b = false ->
  floodFill fuel1 w h data x y a = Some data1 ->
  floodFill fuel2 w h data1 x y b = Some data2 ->
  forall p, Region w h data (x, y) a p -> getPixel w data2 p = filledPixel b.
Proof.
  intros Hsize Ha Hb Hline Hdiff Hrun1 Hrun2 p HR.
  assert (Hseed : fillable w h data (readRgb data (pixelIdx w (x, y))) a (x, y)
                  = true) by (by eapply Reach_seed_ok).
  destruct (fillable_true _ _ _ _ _ _ Hseed) as (_ & Hl1 & _ & Hf1).
  pose proof (floodFill_inv _ _ _ _ _ _ _ _ Hsize Ha Hf1 Hl1 Hrun1) as HI1.
  assert (Hfilled : forall q, Region w h data (x, y) a q ->
                              getPixel w data1 q = filledPixel a).
  { intros q Hq. eapply inv_final_region; [exact HI1|exact Hq]. }
  assert (Hsize1 : wellSized w h data1).
  { unfold wellSized. rewrite (inv_len _ _ _ _ _ _ _ _ HI1). exact Hsize. }
  assert (Hsc : readRgb data1 (pixelIdx w (x, y)) = rgbOf a).
  { apply filled_readRgb; [done|]. apply Hfilled. by apply reach_seed. }
  assert (Hf2 : isFillColor (readRgb data1 (pixelIdx w (x, y))) b = false)
    by (by rewrite Hsc).
  assert (Hl2 : isLine (readRgb data1 (pixelIdx w (x, y))) = false)
    by (by rewrite Hsc).
  pose proof (floodFill_inv _ _ _ _ _ _ _ _ Hsize1 Hb Hf2 Hl2 Hrun2) as HI2.
  eapply inv_final_region; [exact HI2|].
  exact (Region_refill w h data (x, y) a b data1 p Ha Hline Hdiff Hfilled HR).
Qed.

Lemma floodFill_recolours_witness :
  getPixel 3 [0; 0; 0; 255;  0; 0; 0; 255;        0; 0; 0; 255;
              0; 0; 0; 255;  255; 255; 255; 255;  0; 0; 0; 255;
              0; 0; 0; 255;  0; 0; 0; 255;        0; 0; 0; 255] (1, 1)
  = filledPixel row_fill.
Proof.
  apply (floodFill_recolours 5 5 3 3 framed_data 1 1 tomato row_fill
           [0; 0; 0; 255;  0; 0; 0; 255;    0; 0; 0; 255;
            0; 0; 0; 255;  255; 99; 71; 255;  0; 0; 0; 255;
            0; 0; 0; 255;  0; 0; 0; 255;    0; 0; 0; 255]);
    try reflexivity.
  apply reach_seed. reflexivity.
Defined.

(** X4. A fill with a colour whose channels are all below the line
    threshold turns its region into line pixels: afterwards a click on
    any pixel of that region, with any colour, changes nothing. *)
Theorem floodFill_dark_colour_locks fuel w h data x y a data1 :
  wellSized w h data -> byteColor a = true -> isLine (rgbOf a) = true ->
  floodFill fuel w h data x y a = Some data1 ->
  forall p, Region w h data (x, y) a p ->
    forall fuel' b,
      floodFill fuel' w h data1 (fst p) (snd p) b = Some data1.
Proof.
  intros Hsize Ha Hdark Hrun p HR fuel' b.
  assert (Hseed : fillable w h data (readRgb data (pixelIdx w (x, y))) a (x, y)
                  = true) by (by eapply Reach_seed_ok).
  destruct (fillable_true _ _ _ _ _ _ Hseed) as (_ & Hl1 & _ & Hf1).
  pose proof (floodFill_inv _ _ _ _ _ _ _ _ Hsize Ha Hf1 Hl1 Hrun) as HI1.
  apply floodFill_early. right. destruct p as [px py]. cbn [fst snd].
  rewrite (filled_readRgb w data1 (px, py) a Ha); [done|].
  eapply inv_final_region; [exact HI1|exact HR].
Qed.

Lemma floodFill_dark_colour_locks_witness :
  floodFill 0 3 3
    [0; 0; 0; 255;  0; 0; 0; 255;   0; 0; 0; 255;
     0; 0; 0; 255;  0; 0; 96; 255;  0; 0; 0; 255;
     0; 0; 0; 255;  0; 0; 0; 255;   0; 0; 0; 255] 1 1 tomato
  = Some [0; 0; 0; 255;  0; 0; 0; 255;   0; 0; 0; 255;
          0; 0; 0; 255;  0; 0; 96; 255;  0; 0; 0; 255;
          0; 0; 0; 255;  0; 0; 0; 255;   0; 0; 0; 255].
Proof.
  apply (floodFill_dark_colour_locks 5 3 3 framed_data 1 1 navy _
           eq_refl eq_refl eq_refl eq_refl (1, 1)).
  apply reach_seed. reflexivity.
Defined.

(** ** A page without boundaries *)

Lemma move_succ d n p :
  move d (n + 1) p ∈ neighbours (move d n p).
Proof.
  destruct p as [x y], d; unfold move, neighbours; cbn [fst snd].
  - replace (x + (n + 1)) with (x + n + 1) by lia. apply list_elem_of_here.
  - replace (x - (n + 1)) with (x - n - 1) by lia.
    apply list_elem_of_further, list_elem_of_here.
  - replace (y + (n + 1)) with (y + n + 1) by lia.
    do 2 apply list_elem_of_further. apply list_elem_of_here.
  - replace (y - (n + 1)) with (y - n - 1) by lia.
    do 3 apply list_elem_of_further. apply list_elem_of_here.
Qed.

Lemma move_0 d p : move d 0 p = p.
Proof.
  destruct p as [x y], d; unfold move; cbn [fst snd]; f_equal; lia.
Qed.

(** Between two pixels of the grid on one line, all pixels are in the
    grid. *)
Lemma move_between w h d n m p :
  0 <= m <= n -> outOfBounds w h p = false ->
  outOfBounds w h (move d n p) = false ->
  outOfBounds w h (move d m p) = false.
Proof.
  rewrite !outOfBounds_false. destruct p as [x y], d; unfold move;
    cbn [fst snd]; lia.
Qed.

(** On a surface where every pixel is fillable, a straight walk stays in
    the region. *)
Lemma Reach_straight (ok : point -> bool) w h seed d p :
  (forall q, outOfBounds w h q = false -> ok q = true) ->
  outOfBounds w h p = false -> Reach ok seed p ->
  forall n : nat, outOfBounds w h (move d (Z.of_nat n) p) = false ->
                  Reach ok seed (move d (Z.of_nat n) p).
Proof.
  intros Hall Hp HR. induction n as [|n IH]; intros Hn.
  - by rewrite move_0.
  - rewrite Nat2Z.inj_succ, <- Z.add_1_r in *.
    eapply reach_step; [|apply move_succ|by apply Hall].
    apply IH. eapply move_between; [|exact Hp|exact Hn]. lia.
Qed.

Lemma Reach_everywhere (ok : point -> bool) w h seed p :
  (forall q, outOfBounds w h q = false -> ok q = true) ->
  outOfBounds w h seed = false -> outOfBounds w h p = false ->
  Reach ok seed p.
Proof.
  intros Hall Hs Hp. destruct seed as [sx sy], p as [px py].
  pose proof Hs as Hs'. pose proof Hp as Hp'.
  apply outOfBounds_false in Hs', Hp'. cbn [fst snd] in *.
  assert (Hcorner : outOfBounds w h (px, sy) = false)
    by (apply outOfBounds_false; cbn [fst snd]; lia).
  assert (Hrow : Reach ok (sx, sy) (px, sy)).
  { destruct (Z.le_ge_cases sx px).
    - replace (px, sy) with (move East (Z.of_nat (Z.to_nat (px - sx))) (sx, sy))
        in * by (unfold move; cbn [fst snd]; f_equal; lia).
      eapply Reach_straight; eauto. apply reach_seed. by apply Hall.
    - replace (px, sy) with (move West (Z.of_nat (Z.to_nat (sx - px))) (sx, sy))
        in * by (unfold move; cbn [fst snd]; f_equal; lia).
      eapply Reach_straight; eauto. apply reach_seed. by apply Hall. }
  destruct (Z.le_ge_cases sy py).
  - replace (px, py) with (move South (Z.of_nat (Z.to_nat (py - sy))) (px, sy))
      in * by (unfold move; cbn [fst snd]; f_equal; lia).
    eapply Reach_straight; eauto.
  - replace (px, py) with (move North (Z.of_nat (Z.to_nat (sy - py))) (px, sy))
      in * by (unfold move; cbn [fst snd]; f_equal; lia).
    eapply Reach_straight; eauto.
Qed.

(** X5. On a surface without boundaries, where every pixel is no line
    pixel, within tolerance of the clicked pixel and not yet the fill
    colour, one click colours every pixel of the surface. *)
Theorem floodFill_open_page fuel w h data x y fill data' :
  wellSized w h data -> byteColor fill = true ->
  outOfBounds w h (x, y) = false ->
  (forall p, outOfBounds w h p = false ->
             fillable w h data (readRgb data (pixelIdx w (x, y))) fill p
             = true) ->
  floodFill fuel w h data x y fill = Some data' ->
  forall p, outOfBounds w h p = false -> getPixel w data' p = filledPixel fill.
Proof.
  intros Hsize Hfill Hseed Hall Hrun p Hp.
  destruct (fillable_true _ _ _ _ _ _ (Hall (x, y) Hseed)) as (_ & Hl & _ & Hf).
  pose proof (floodFill_inv _ _ _ _ _ _ _ _ Hsize Hfill Hf Hl Hrun) as HI.
  eapply inv_final_region; [exact HI|].
  by eapply Reach_everywhere.
Qed.

Lemma floodFill_open_page_witness :
  getPixel 2 [255; 99; 71; 255;  255; 99; 71; 255;
              255; 99; 71; 255;  255; 99; 71; 255] (1, 1)
  = filledPixel tomato.
Proof.
  apply (floodFill_open_page 17 2 2 white_page 0 0 tomato);
    try reflexivity.
  intros [px py] Hp. apply outOfBounds_false in Hp. cbn [fst snd] in Hp.
  assert (px = 0 \/ px = 1) as [-> | ->] by lia;
    assert (py = 0 \/ py = 1) as [-> | ->] by lia; reflexivity.
Defined.

(** ** A canvas without an image *)

Lemma lookup_fillRect (r g b a : Z) : forall m n : nat,
  (m < n)%nat ->
  mjoin (replicate n [r; g; b; a]) !! (4 * m)%nat = Some r /\
  mjoin (replicate n [r; g; b; a]) !! (4 * m + 1)%nat = Some g /\
  mjoin (replicate n [r; g; b; a]) !! (4 * m + 2)%nat = Some b /\
  mjoin (replicate n [r; g; b; a]) !! (4 * m + 3)%nat = Some a.
Proof.
  induction m as [|m IH]; intros n Hmn; (destruct n as [|n]; [lia|]).
  - done.
  - replace (4 * S m)%nat with (S (S (S (S (4 * m))))) by lia.
    simpl. apply IH. lia.
Qed.

(** After [fillRect] or [clearRect] over the whole canvas every pixel of
    the surface holds the one colour. *)
Lemma getPixel_fillRectAll w h r g b a p :
  outOfBounds w h p = false ->
  getPixel w (fillRectAll w h r g b a) p = (Num r, Num g, Num b, Num a).
Proof.
  intros Hp. apply outOfBounds_false in Hp. destruct p as [x y].
  cbn [fst snd] in Hp. unfold getPixel, pixelIdx, fillRectAll. cbn [fst snd].
  set (m := y * w + x).
  assert (Hm : 0 <= m < w * h) by (unfold m; nia).
  destruct (lookup_fillRect r g b a (Z.to_nat m) (Z.to_nat (w * h)))
    as (H0 & H1 & H2 & H3); [lia|].
  unfold typedGet.
  destruct (Z.ltb_spec (m * 4) 0); [lia|].
  destruct (Z.ltb_spec (m * 4 + 1) 0); [lia|].
  destruct (Z.ltb_spec (m * 4 + 2) 0); [lia|].
  destruct (Z.ltb_spec (m * 4 + 3) 0); [lia|].
  replace (Z.to_nat (m * 4)) with (4 * Z.to_nat m)%nat by lia.
  replace (Z.to_nat (m * 4 + 1)) with (4 * Z.to_nat m + 1)%nat by lia.
  replace (Z.to_nat (m * 4 + 2)) with (4 * Z.to_nat m + 2)%nat by lia.
  replace (Z.to_nat (m * 4 + 3)) with (4 * Z.to_nat m + 3)%nat by lia.
  by rewrite H0, H1, H2, H3.
Qed.

Lemma floodFill_outside fuel w h data x y fill :
  outOfBounds w h (x, y) = true ->
  floodFill (S fuel) w h data x y fill = Some data.
Proof.
  intros Hout. unfold floodFill.
  destruct (isFillColor _ _); [done|]. destruct (isLine _); [done|].
  rewrite floodLoop_cons, Hout. apply floodLoop_nil.
Qed.

(** X6. A click on a canvas that shows no picture never changes a
    pixel. Without an image no handler is registered, and the click is
    not reported. With an image set but not yet drawn, the canvas still
    being transparent black as [drawImage] leaves it without an image,
    the handler runs: the fill takes transparent black for line pixels
    and leaves the canvas as it is, whatever the colour and the place of
    the click, and [onColor] is called. *)
Theorem click_on_empty_canvas :
  forall decodeImage fuel canvas base64Image color cx cy calls cleared,
    context2d canvas = true ->
    drawImage decodeImage (Some canvas) None None = Some cleared ->
    click (S fuel) (Some cleared) base64Image color cx cy calls
    = Some (Some cleared, if noImage base64Image then calls else S calls).
Proof.
  intros decodeImage fuel canvas base64Image color cx cy calls cleared
    Hctx Hdraw.
  unfold click, listening. destruct (noImage base64Image); [done|].
  cbn [negb].
  unfold drawImage in Hdraw. rewrite Hctx in Hdraw.
  cbn [negb noImage] in Hdraw. injection Hdraw as <-.
  set (blank := clearRectAll (width canvas) (height canvas)).
  unfold handleCanvasClick.
  change (context2d (setPixels canvas blank)) with (context2d canvas).
  rewrite Hctx. cbn [negb].
  destruct (clickPoint (setPixels canvas blank) cx cy) as [x y].
  change (width (setPixels canvas blank)) with (width canvas).
  change (height (setPixels canvas blank)) with (height canvas).
  change (pixels (setPixels canvas blank)) with blank.
  assert (Hsame : floodFill (S fuel) (width canvas) (height canvas) blank x y
                    (hexToRgba color) = Some blank).
  { destruct (outOfBounds (width canvas) (height canvas) (x, y)) eqn:Hb.
    - by apply floodFill_outside.
    - apply floodFill_early. right.
      pose proof (getPixel_fillRectAll _ _ 0 0 0 0 _ Hb) as Hpix.
      unfold getPixel in Hpix. unfold readRgb, blank, clearRectAll.
      injection Hpix as -> -> -> _. reflexivity. }
  by rewrite Hsame.
Qed.

Lemma click_on_empty_canvas_witness :
  click 1 (Some (setPixels line_canvas (clearRectAll 1 1)))
    (Some "iVBOR"%string) "#FF6347" (1 # 2)%Q (1 # 2)%Q 0
  = Some (Some (setPixels line_canvas (clearRectAll 1 1)), 1%nat).
Proof.
  apply (click_on_empty_canvas (fun _ _ _ => None) 0 line_canvas
           (Some "iVBOR"%string));
    reflexivity.
Defined.

(** ** Resetting the colouring *)

Lemma handleCanvasClick_keeps_canvas fuel canvas color cx cy calls r calls' :
  handleCanvasClick fuel (Some canvas) color cx cy calls = Some (r, calls') ->
  exists canvas', r = Some canvas' /\
    width canvas' = width canvas /\ height canvas' = height canvas /\
    context2d canvas' = context2d canvas /\ rect canvas' = rect canvas.
Proof.
  unfold handleCanvasClick. destruct (context2d canvas) eqn:Hctx; cbn [negb].
  - destruct (clickPoint canvas cx cy) as [x y].
    destruct (floodFill _ _ _ _ _ _ _); [|done].
    intros [= <- _]. by eexists.
  - intros [= <- _]. by eexists.
Qed.

(** X7. Resetting after any sequence of fills gives the line art as it
    was first drawn: when the image of the line art loads, whatever
    clicks came before, [clearColoring] leaves exactly its pixels on the
    canvas, whose size and place are as before; and every one of the
    clicks was reported. *)
Theorem clearColoring_after_clicks :
  forall decodeImage fuel clicks canvas base64Image art calls canvas' calls',
    context2d canvas = true ->
    noImage (Some base64Image) = false ->
    decodeImage (imageSrc base64Image None) (width canvas) (height canvas)
    = Some art ->
    handleCanvasClicks fuel (Some canvas) clicks calls
    = Some (Some canvas', calls') ->
    clearColoring decodeImage (Some canvas') (Some base64Image)
    = Some (setPixels canvas art) /\
    calls' = (calls + length clicks)%nat.
Proof.
  intros decodeImage fuel clicks.
  induction clicks as [|[[color cx] cy] rest IH];
    intros canvas base64Image art calls canvas' calls' Hctx Himg Hart Hrun.
  - injection Hrun as <- <-. split; [|cbn [length]; lia].
    unfold clearColoring, onload. rewrite Himg, Hctx.
    change (default EmptyString (Some base64Image)) with base64Image.
    cbn [negb]. by rewrite Hart.
  - cbn [handleCanvasClicks] in Hrun.
    destruct (handleCanvasClick fuel (Some canvas) color cx cy calls)
      as [[r n]|] eqn:Hclick; [|done].
    assert (Hn : n = S calls).
    { unfold handleCanvasClick in Hclick. rewrite Hctx in Hclick.
      cbn [negb] in Hclick. destruct (clickPoint canvas cx cy) as [x y].
      destruct (floodFill _ _ _ _ _ _ _); [|done]. by injection Hclick. }
    apply handleCanvasClick_keeps_canvas in Hclick
      as (mid & -> & Hw & Hh & Hmctx & Hrect).
    rewrite <- Hw, <- Hh in Hart. rewrite <- Hmctx in Hctx.
    destruct (IH mid base64Image art n canvas' calls' Hctx Himg Hart Hrun)
      as [Hreset Hcalls].
    split; [|cbn [length]; lia].
    rewrite Hreset. unfold setPixels. by rewrite Hw, Hh, Hmctx, Hrect.
Qed.

Lemma clearColoring_after_clicks_witness :
  clearColoring (fun _ _ _ => Some [255; 255; 255; 255])
    (Some (setPixels line_canvas (clearRectAll 1 1))) (Some "iVBOR"%string)
  = Some (setPixels line_canvas [255; 255; 255; 255]) /\
  1%nat = (0 + length [("#FF6347"%string, (1 # 2)%Q, (1 # 2)%Q)])%nat.
Proof.
  apply (clearColoring_after_clicks (fun _ _ _ => Some [255; 255; 255; 255])
           1 [("#FF6347"%string, (1 # 2)%Q, (1 # 2)%Q)]
           (setPixels line_canvas (clearRectAll 1 1)) "iVBOR"%string
           [255; 255; 255; 255] 0%nat);
    reflexivity.
Defined.

(** ** Strokes *)

Lemma getCoordinates_setPixels canvas data e :
  getCoordinates (Some (setPixels canvas data)) e
  = getCoordinates (Some canvas) e.
Proof. reflexivity. Qed.

Lemma draw_segment strokeLine canvas e last coords :
  context2d canvas = true ->
  getCoordinates (Some canvas) e = Some coords ->
  draw strokeLine (Some canvas) e
    {| isDrawing := true; lastPosition := Some last |}
  = ({| isDrawing := true; lastPosition := Some coords |},
     Some (setPixels canvas
             (strokeLine (width canvas) (height canvas) (pixels canvas)
                last coords))).
Proof.
  intros Hctx Hc. unfold draw. cbn [isDrawing lastPosition negb].
  rewrite Hc. by rewrite Hctx.
Qed.

(** X8. A stroke is a polyline and two strokes are not joined: after
    pointer-down at [c1] and moves to [c2] and [c3], the canvas holds the
    segment from [c1] to [c2] and over it the segment from [c2] to [c3];
    if the pointer is lifted after [c2] and put down again at [c3], a
    move to [c4] draws the segment from [c3] to [c4] only. *)
Theorem draw_polyline :
  forall strokeLine canvas e1 e2 e3 e4 st c1 c2 c3 c4,
    context2d canvas = true ->
    getCoordinates (Some canvas) e1 = Some c1 ->
    getCoordinates (Some canvas) e2 = Some c2 ->
    getCoordinates (Some canvas) e3 = Some c3 ->
    getCoordinates (Some canvas) e4 = Some c4 ->
    let first := strokeLine (width canvas) (height canvas) (pixels canvas)
                   c1 c2 in
    let st1 := startDrawing (Some canvas) e1 st in
    let st2 := fst (draw strokeLine (Some canvas) e2 st1) in
    let ref2 := snd (draw strokeLine (Some canvas) e2 st1) in
    ref2 = Some (setPixels canvas first) /\
    draw strokeLine ref2 e3 st2
    = ({| isDrawing := true; lastPosition := Some c3 |},
       Some (setPixels canvas
               (strokeLine (width canvas) (height canvas) first c2 c3))) /\
    draw strokeLine ref2 e4 (startDrawing ref2 e3 (stopDrawing st2))
    = ({| isDrawing := true; lastPosition := Some c4 |},
       Some (setPixels canvas
               (strokeLine (width canvas) (height canvas) first c3 c4))).
Proof.
  intros strokeLine canvas e1 e2 e3 e4 st c1 c2 c3 c4 Hctx H1 H2 H3 H4.
  cbn zeta.
  set (first := strokeLine (width canvas) (height canvas) (pixels canvas)
                  c1 c2).
  assert (Hst1 : startDrawing (Some canvas) e1 st
                 = {| isDrawing := true; lastPosition := Some c1 |})
    by (unfold startDrawing; by rewrite H1).
  assert (Hst3 : forall st', startDrawing (Some (setPixels canvas first)) e3 st'
                 = {| isDrawing := true; lastPosition := Some c3 |}).
  { intros st'. unfold startDrawing.
    by rewrite getCoordinates_setPixels, H3. }
  rewrite Hst1, (draw_segment strokeLine canvas e2 c1 c2 Hctx H2).
  cbn [fst snd]. fold first. split; [done|]. split.
  - by rewrite (draw_segment strokeLine _ e3 c2 c3).
  - rewrite Hst3. by rewrite (draw_segment strokeLine _ e4 c3 c4).
Qed.

Lemma draw_polyline_witness :
  snd (draw dotStroke (Some line_canvas) (MouseEvent (1 # 2) (1 # 2))
         (startDrawing (Some line_canvas) (MouseEvent (1 # 4) (1 # 2))
            {| isDrawing := false; lastPosition := None |}))
  = Some (setPixels line_canvas
            (dotStroke 1 1 [0; 0; 0; 255] (1 # 4, 1 # 2)%Q (1 # 2, 1 # 2)%Q)).
Proof.
  refine (proj1 (draw_polyline dotStroke line_canvas
            (MouseEvent (1 # 4) (1 # 2)) (MouseEvent (1 # 2) (1 # 2))
            (MouseEvent (3 # 4) (1 # 2)) (MouseEvent (1 # 8) (1 # 2))
            {| isDrawing := false; lastPosition := None |}
            _ _ _ _ eq_refl eq_refl eq_refl eq_refl eq_refl)).
Defined.

(** ** The blank test, pixel by pixel *)

Lemma lor_shiftl_add a b n :
  0 <= n -> 0 <= a < 2 ^ n -> Z.lor a (Z.shiftl b n) = a + b * 2 ^ n.
Proof.
  intros Hn Ha.
  assert (Hland : Z.land a (Z.shiftl b n) = 0).
  { apply Z.bits_inj'. intros i Hi. rewrite Z.land_spec, Z.bits_0.
    destruct (Z.lt_ge_cases i n).
    - rewrite (Z.shiftl_spec_low b n i) by lia. apply andb_false_r.
    - assert (Z.testbit a i = false) as ->; [|done].
      destruct (Z.eq_dec a 0) as [->|Hne]; [apply Z.bits_0|].
      apply Z.bits_above_log2; [lia|].
      apply Z.log2_lt_pow2; [lia|].
      apply Z.lt_le_trans with (2 ^ n); [lia|].
      apply Z.pow_le_mono_r; lia. }
  rewrite <- Z.lxor_lor by done. rewrite <- Z.add_nocarry_lxor by done.
  by rewrite Z.shiftl_mul_pow2.
Qed.

Lemma lor_add_high a k n :
  0 <= n -> 0 <= a < 2 ^ n -> Z.lor a (k * 2 ^ n) = a + k * 2 ^ n.
Proof.
  intros Hn Ha. rewrite <- Z.shiftl_mul_pow2 by done.
  rewrite lor_shiftl_add by done. by rewrite Z.shiftl_mul_pow2.
Qed.

(** The little-endian word of four bytes. *)
Lemma word_of_bytes b0 b1 b2 b3 :
  0 <= b0 <= 255 -> 0 <= b1 <= 255 -> 0 <= b2 <= 255 -> 0 <= b3 <= 255 ->
  Z.lor b0 (Z.lor (Z.shiftl b1 8) (Z.lor (Z.shiftl b2 16) (Z.shiftl b3 24)))
  = b0 + 256 * b1 + 65536 * b2 + 16777216 * b3.
Proof.
  intros H0 H1 H2 H3. rewrite !Z.shiftl_mul_pow2 by lia.
  rewrite (lor_add_high (b2 * 2 ^ 16) b3 24) by lia.
  replace (b2 * 2 ^ 16 + b3 * 2 ^ 24) with ((b2 + b3 * 2 ^ 8) * 2 ^ 16) by lia.
  rewrite (lor_add_high (b1 * 2 ^ 8) (b2 + b3 * 2 ^ 8) 16) by lia.
  replace (b1 * 2 ^ 8 + (b2 + b3 * 2 ^ 8) * 2 ^ 16)
    with ((b1 + (b2 + b3 * 2 ^ 8) * 2 ^ 8) * 2 ^ 8) by lia.
  rewrite (lor_add_high b0 _ 8) by lia. lia.
Qed.

Lemma blank_words : forall (n : nat) (data : list Z),
  length data = (4 * n)%nat -> byteBuffer data ->
  existsb (fun pixel => negb (pixel =? whitePixel)) (toUint32Array data)
  = false <->
  Forall (fun b => b = 255) data.
Proof.
  induction n as [|n IH]; intros data Hlen Hb.
  - destruct data; [|discriminate]. split; [constructor|done].
  - destruct data as [|b0 [|b1 [|b2 [|b3 rest]]]];
      cbn [length] in Hlen; try lia.
    unfold byteBuffer in Hb.
    apply Forall_cons in Hb as [H0 Hb]. apply Forall_cons in Hb as [H1 Hb].
    apply Forall_cons in Hb as [H2 Hb]. apply Forall_cons in Hb as [H3 Hb].
    specialize (IH rest ltac:(lia) Hb).
    cbn [toUint32Array existsb]. rewrite word_of_bytes by done.
    rewrite orb_false_iff, IH, negb_false_iff, Z.eqb_eq.
    unfold whitePixel. rewrite !Forall_cons. split.
    + intros [Hw Hrest].
      assert (b0 = 255 /\ b1 = 255 /\ b2 = 255 /\ b3 = 255)
        as (-> & -> & -> & ->) by lia. done.
    + intros (-> & -> & -> & -> & Hrest). done.
Qed.

(** X9. On a canvas with its full buffer, the blank test answers true
    exactly when every byte of every pixel is 255, alpha included: a
    transparent canvas, or a white one that is not fully opaque, is not
    blank. *)
Theorem isCanvasBlank_iff_white canvas :
  context2d canvas = true ->
  wellSized (width canvas) (height canvas) (pixels canvas) ->
  byteBuffer (pixels canvas) ->
  isCanvasBlank (Some canvas) = true <->
  Forall (fun b => b = 255) (pixels canvas).
Proof.
  intros Hctx Hsize Hb. unfold isCanvasBlank. rewrite Hctx. cbn [negb].
  rewrite negb_true_iff.
  apply (blank_words (Z.to_nat (width canvas * height canvas))); [|done].
  unfold wellSized in Hsize. lia.
Qed.

Lemma isCanvasBlank_iff_white_witness :
  isCanvasBlank (Some (setPixels line_canvas [255; 255; 255; 254])) = true <->
  Forall (fun b => b = 255) [255; 255; 255; 254].
Proof.
  apply (isCanvasBlank_iff_white (setPixels line_canvas [255; 255; 255; 254]));
    [reflexivity|reflexivity|].
  unfold byteBuffer. repeat (constructor; [simpl; lia|]). constructor.
Defined.

(** ** Colour strings that are no colours *)

Lemma in_allAscii a : In a allAscii.
Proof.
  unfold allAscii. rewrite <- (ascii_nat_embedding a).
  apply in_map, in_seq. pose proof (nat_ascii_bounded a). lia.
Qed.

Lemma parseInt16_twice c :
  parseInt16 (String c (String c EmptyString)) = doubledDigit c.
Proof. destruct c as [[] [] [] [] [] [] [] []]; reflexivity. Qed.

Lemma parseInt16_pair_checked :
  forallb (fun a =>
    forallb (fun b =>
      parsedChannel (parseInt16 (String a (String b EmptyString))))
      allAscii) allAscii = true.
Proof. vm_compute. reflexivity. Qed.

Lemma parseInt16_pair_range a b :
  parsedChannel (parseInt16 (String a (String b EmptyString))) = true.
Proof.
  pose proof parseInt16_pair_checked as Hall.
  rewrite forallb_forall in Hall. specialize (Hall a (in_allAscii a)).
  rewrite forallb_forall in Hall. exact (Hall b (in_allAscii b)).
Qed.

(** X11. In the four-character form the first character is not looked
    at (the [#] is not checked) and each channel is read from one
    character alone: it is the doubled digit when the character is a
    hexadecimal digit and [NaN] otherwise (no sign, white space or prefix
    can slip in), so the colour has byte channels exactly when the three
    characters are hexadecimal digits. *)
Theorem hexToRgba_short_form c0 c1 c2 c3 :
  hexToRgba (String c0 (String c1 (String c2 (String c3 EmptyString))))
  = (doubledDigit c1, doubledDigit c2, doubledDigit c3, Num 255) /\
  (byteColor
     (hexToRgba (String c0 (String c1 (String c2 (String c3 EmptyString)))))
   = true <->
   is_Some (hexDigit c1) /\ is_Some (hexDigit c2) /\ is_Some (hexDigit c3)).
Proof.
  assert (Heq : hexToRgba
                  (String c0 (String c1 (String c2 (String c3 EmptyString))))
                = (doubledDigit c1, doubledDigit c2, doubledDigit c3, Num 255)).
  { unfold hexToRgba, twice. cbn. by rewrite !parseInt16_twice. }
  split; [exact Heq|]. rewrite Heq. unfold byteColor, doubledDigit.
  rewrite !andb_true_iff.
  assert (Hch : forall c,
             byteChannel match hexDigit c with
                         | Some d => Num (16 * d + d)
                         | None => NaN
                         end = true <-> is_Some (hexDigit c)).
  { intros c. destruct (hexDigit c) as [d|] eqn:Hd.
    - pose proof (hexDigit_range c d Hd). unfold byteChannel.
      split; [by eexists|lia].
    - split; [done|by intros [? ?]]. }
  rewrite !Hch. tauto.
Qed.

(** X12. Whatever the string, every colour channel that [hexToRgba]
    returns is [NaN] or an integer from -15 to 255, and alpha is 255:
    malformed input can give [NaN] or a negative channel but never a
    value above 255. *)
Theorem hexToRgba_channels hex :
  parsedChannel (fst (fst (fst (hexToRgba hex)))) = true /\
  parsedChannel (snd (fst (fst (hexToRgba hex)))) = true /\
  parsedChannel (snd (fst (hexToRgba hex))) = true /\
  snd (hexToRgba hex) = Num 255.
Proof.
  unfold hexToRgba.
  destruct (Nat.eqb_spec (String.length hex) 4) as [H4|_];
    [|destruct (Nat.eqb_spec (String.length hex) 7) as [H7|_]].
  - destruct hex as [|c0 [|c1 [|c2 [|c3 [|c4 rest]]]]]; try discriminate.
    unfold twice. cbn. by rewrite !parseInt16_pair_range.
  - destruct hex as [|c0 [|c1 [|c2 [|c3 [|c4 [|c5 [|c6 [|c7 rest]]]]]]]];
      try discriminate.
    unfold slice. cbn. by rewrite !parseInt16_pair_range.
  - done.
Qed.

(** ** The history of creations *)

Lemma find_map_same_id (f : History.HistoryItem -> History.HistoryItem)
    (i : Z) (history : list History.HistoryItem) :
  (forall item, History.id (f item) = History.id item) ->
  History.activeItem (List.map f history) (Some i)
  = f <$> History.activeItem history (Some i).
Proof.
  intros Hid. unfold History.activeItem.
  induction history as [|item rest IH]; [done|].
  cbn [List.map List.find History.isActive]. rewrite Hid.
  by destruct (History.id item =? i).
Qed.

Lemma withColored_id item v :
  History.id (History.withColored item v) = History.id item.
Proof. reflexivity. Qed.

Lemma activeItem_id history i item :
  History.activeItem history (Some i) = Some item -> History.id item = i.
Proof.
  unfold History.activeItem. intros Hf. apply find_some in Hf as [_ Hf].
  cbn in Hf. lia.
Qed.

(** X13. Colouring is saved to the active creation and to no other: after
    [handleOnColor] the ids of the history are the same in the same
    order, looking up the active id gives the item it gave before with
    the new picture as its colouring, and looking up any other id gives
    what it gave before. *)
Theorem handleOnColor_lookup canvas url a history i :
  a <> 0 ->
  List.map History.id
    (History.handleOnColor (Some canvas) url (Some a) history)
  = List.map History.id history /\
  History.activeItem
    (History.handleOnColor (Some canvas) url (Some a) history) (Some i)
  = if i =? a
    then (fun item => History.withColored item (Some url))
           <$> History.activeItem history (Some i)
    else History.activeItem history (Some i).
Proof.
  intros Ha. unfold History.handleOnColor, History.truthy.
  destruct (Z.eqb_spec a 0) as [|_]; [done|]. cbn [negb]. split.
  - rewrite List.map_map. apply List.map_ext. intros item.
    by destruct (History.isActive (Some a) item).
  - rewrite find_map_same_id
      by (intros item; by destruct (History.isActive (Some a) item)).
    destruct (History.activeItem history (Some i)) as [item|] eqn:Hfind;
      [|by destruct (i =? a)].
    apply activeItem_id in Hfind. cbn. rewrite Hfind.
    by destruct (i =? a).
Qed.

Lemma handleOnColor_lookup_witness :
  History.activeItem
    (History.handleOnColor (Some line_canvas) "data:image/png;base64,BBBB"
       (Some 1700000000000) [sample_item]) (Some 1700000000000)
  = Some (History.withColored sample_item
            (Some "data:image/png;base64,BBBB"%string)).
Proof.
  apply (proj2 (handleOnColor_lookup line_canvas "data:image/png;base64,BBBB"
                  1700000000000 [sample_item] 1700000000000 ltac:(lia))).
Defined.

Lemma withColored_None item :
  History.coloredImageDataUrl item = None ->
  History.withColored item None = item.
Proof. destruct item. cbn. by intros ->. Qed.

(** X14. Resetting the colouring undoes the saving of it: clearing after
    any [handleOnColor] gives the history that clearing alone gives, and
    that is the history as it was when the active creation had no
    colouring. *)
Theorem handleClearColoring_undoes canvasRef url active history :
  History.handleClearColoring active
    (History.handleOnColor canvasRef url active history)
  = History.handleClearColoring active history /\
  ((forall item, In item history -> History.isActive active item = true ->
                 History.coloredImageDataUrl item = None) ->
   History.handleClearColoring active
     (History.handleOnColor canvasRef url active history)
   = history).
Proof.
  assert (Hfirst : History.handleClearColoring active
                     (History.handleOnColor canvasRef url active history)
                   = History.handleClearColoring active history).
  { unfold History.handleClearColoring, History.handleOnColor.
    destruct canvasRef as [canvas|]; [|done].
    destruct (History.truthy active); [|done].
    rewrite List.map_map. apply List.map_ext. intros item.
    destruct (History.isActive active item) eqn:Hact.
    - change (History.isActive active
                (History.withColored item (Some url)))
        with (History.isActive active item). by rewrite Hact.
    - by rewrite Hact. }
  split; [exact Hfirst|]. intros Hnone. rewrite Hfirst.
  unfold History.handleClearColoring.
  destruct (History.truthy active); [|done].
  rewrite <- (List.map_id history) at 2. apply List.map_ext_in.
  intros item Hin. destruct (History.isActive active item) eqn:Hact; [|done].
  apply withColored_None. by apply Hnone.
Qed.

Lemma handleClearColoring_undoes_witness :
  History.handleClearColoring (Some 1700000000000)
    (History.handleOnColor (Some line_canvas) "data:image/png;base64,BBBB"
       (Some 1700000000000) [sample_item])
  = [sample_item].
Proof.
  apply (proj2 (handleClearColoring_undoes (Some line_canvas)
                  "data:image/png;base64,BBBB" (Some 1700000000000)
                  [sample_item])).
  intros item [<-|[]] _. reflexivity.
Defined.

Lemma find_filter_keep {A} (p q : A -> bool) (l : list A) :
  (forall x, p x = true -> q x = true) ->
  List.find p (List.filter q l) = List.find p l.
Proof.
  intros Hpq. induction l as [|x l IH]; [done|]. cbn.
  destruct (q x) eqn:Hq; cbn.
  - by rewrite IH.
  - destruct (p x) eqn:Hp; [|done]. rewrite (Hpq x Hp) in Hq. discriminate.
Qed.

Lemma find_filter_drop {A} (p q : A -> bool) (l : list A) :
  (forall x, p x = true -> q x = false) ->
  List.find p (List.filter q l) = None.
Proof.
  intros Hpq. induction l as [|x l IH]; [done|]. cbn.
  destruct (q x) eqn:Hq; cbn; [|done].
  destruct (p x) eqn:Hp; [|done]. rewrite (Hpq x Hp) in Hq. discriminate.
Qed.

(** X15. Deleting a creation removes it and nothing else: once the
    deletion is confirmed, no item is found under the deleted id, every
    other id finds what it found before, the deleted id is not the
    active one any more, and a click on the deleted id cannot make it
    active again. *)
Theorem handleDeleteHistoryItem_lookup d history active i :
  History.activeItem
    (fst (History.handleDeleteHistoryItem true d history active)) (Some i)
  = (if i =? d then None else History.activeItem history (Some i)) /\
  snd (History.handleDeleteHistoryItem true d history active) <> Some d /\
  History.handleHistoryClick d
    (fst (History.handleDeleteHistoryItem true d history active))
    (snd (History.handleDeleteHistoryItem true d history active))
  = snd (History.handleDeleteHistoryItem true d history active).
Proof.
  assert (Hgone : forall j,
            History.activeItem
              (fst (History.handleDeleteHistoryItem true d history active))
              (Some j)
            = if j =? d then None else History.activeItem history (Some j)).
  { intros j. unfold History.handleDeleteHistoryItem, History.activeItem.
    cbn [fst snd]. destruct (Z.eqb_spec j d) as [->|Hne].
    - apply find_filter_drop. intros item. cbn. lia.
    - apply find_filter_keep. intros item. cbn. lia. }
  split; [apply Hgone|]. split.
  - unfold History.handleDeleteHistoryItem. cbn [snd].
    destruct active as [a|]; [|done].
    destruct (Z.eqb_spec a d); [done|congruence].
  - unfold History.handleHistoryClick. by rewrite Hgone, Z.eqb_refl.
Qed.

(** X16. A new creation is appended and made active; looking up its id
    finds it when no earlier item has that id, and finds the earlier
    item otherwise. *)
Theorem addHistoryItem_active item history :
  snd (History.addHistoryItem item history) = Some (History.id item) /\
  History.activeItem (fst (History.addHistoryItem item history))
    (snd (History.addHistoryItem item history))
  = match History.activeItem history (Some (History.id item)) with
    | Some old => Some old
    | None => Some item
    end.
Proof.
  split; [done|]. unfold History.addHistoryItem, History.activeItem.
  cbn [fst snd]. induction history as [|x rest IH].
  - cbn. by rewrite Z.eqb_refl.
  - cbn [app List.find]. by destruct (History.isActive _ x).
Qed.

(** ** Speech samples *)

Lemma int16_range lo hi :
  0 <= lo <= 255 -> 0 <= hi <= 255 -> -32768 <= int16 lo hi <= 32767.
Proof. intros Hlo Hhi. unfold int16. cbn zeta. destruct (Z.ltb_spec (lo + 256 * hi) 32768); lia. Qed.

Lemma int16Words_spec : forall (n : nat) (data : list Z),
  (length data <= n)%nat -> byteBuffer data ->
  Forall (fun v => -32768 <= v <= 32767) (int16Words data) /\
  length (int16Words data) = (length data / 2)%nat.
Proof.
  induction n as [|n IH]; intros data Hlen Hb.
  - destruct data; [|cbn in Hlen; lia]. split; [constructor|done].
  - destruct data as [|lo [|hi rest]]; [by split; [constructor|]..|].
    unfold byteBuffer in Hb.
    apply Forall_cons in Hb as [Hlo Hb]. apply Forall_cons in Hb as [Hhi Hb].
    cbn [length] in Hlen.
    destruct (IH rest ltac:(lia) Hb) as [Hrange Hcount].
    cbn [int16Words length]. split.
    + constructor; [by apply int16_range|done].
    + rewrite Hcount.
      change (S (S (length rest))) with (1 * 2 + length rest)%nat.
      rewrite Nat.div_add_l by lia. lia.
Qed.

Lemma sample_range v :
  -32768 <= v <= 32767 ->
  (-1 <= inject_Z v / 32768)%Q /\ (inject_Z v / 32768 < 1)%Q.
Proof.
  intros Hv. unfold Qle, Qlt, Qdiv, Qmult, Qinv, inject_Z. cbn. lia.
Qed.

Lemma channelSamples_spec dataInt16 numChannels frameCount channel :
  Forall (fun v => -32768 <= v <= 32767) dataInt16 ->
  (channel < numChannels)%nat ->
  (frameCount * numChannels <= length dataInt16)%nat ->
  length (channelSamples dataInt16 numChannels frameCount channel)
  = frameCount /\
  Forall sampleInRange
    (channelSamples dataInt16 numChannels frameCount channel).
Proof.
  intros Hrange Hch Hfit. unfold channelSamples.
  split; [by rewrite length_map, length_seq|].
  apply Forall_forall. intros s Hs. apply list_elem_of_In in Hs.
  apply in_map_iff in Hs as (i & <- & Hi). apply in_seq in Hi.
  assert (Hk : (i * numChannels + channel < length dataInt16)%nat) by nia.
  destruct (lookup_lt_is_Some_2 dataInt16 _ Hk) as [v Hv]. rewrite Hv.
  exists (inject_Z v / 32768)%Q. split; [done|].
  apply sample_range.
  eapply (proj1 (Forall_forall _ _) Hrange). by eapply list_elem_of_lookup_2.
Qed.

(** X17. The speech that is played never clips and never holds [NaN]:
    when [decodePcmAudioData] returns, there is one list of samples per
    channel, each as long as the whole part of half the number of bytes
    over the number of channels, and every sample is a number from -1
    (included) to 1 (excluded). *)
Theorem decodePcmAudioData_samples
    maxChannels supportedRate data sampleRate numChannels channels :
  byteBuffer data ->
  decodePcmAudioData maxChannels supportedRate data sampleRate numChannels
  = Some channels ->
  length channels = numChannels /\
  Forall (fun samples =>
            length samples = (length data / 2 / numChannels)%nat /\
            Forall sampleInRange samples) channels.
Proof.
  intros Hb. unfold decodePcmAudioData, toInt16Array.
  destruct (Nat.even (length data)); [|done].
  destruct (int16Words_spec (length data) data (le_n _) Hb) as [Hrange Hcount].
  destruct (Nat.eqb_spec numChannels 0) as [|Hn]; [done|].
  destruct (maxChannels <? numChannels)%nat; [done|].
  destruct (supportedRate sampleRate); [|done].
  destruct (Nat.eqb_spec (length (int16Words data) / numChannels) 0)
    as [|Hf]; [done|].
  cbn [orb negb]. intros [= <-]. split; [by rewrite length_map, length_seq|].
  apply Forall_forall. intros samples Hs. apply list_elem_of_In in Hs.
  apply in_map_iff in Hs as (channel & <- & Hc). apply in_seq in Hc.
  rewrite <- Hcount. apply channelSamples_spec; [done|lia|].
  rewrite Nat.mul_comm. by apply Nat.Div0.mul_div_le.
Qed.

Lemma decodePcmAudioData_samples_witness :
  length [[Some (inject_Z (-1) / 32768)%Q; Some (inject_Z 256 / 32768)%Q]]
  = 1%nat /\
  Forall (fun samples =>
            length samples = (length [255; 255; 0; 1] / 2 / 1)%nat /\
            Forall sampleInRange samples)
    [[Some (inject_Z (-1) / 32768)%Q; Some (inject_Z 256 / 32768)%Q]].
Proof.
  apply (decodePcmAudioData_samples 32
           (fun rate => (8000 <=? rate) && (rate <=? 96000))
           [255; 255; 0; 1] 24000 1).
  - unfold byteBuffer. repeat (constructor; [lia|]). constructor.
  - reflexivity.
Defined.

(** ** A pixel on its own *)

Lemma neighbours_other p q : q ∈ neighbours p -> q <> p.
Proof.
  destruct p as [x y]. unfold neighbours.
  rewrite !elem_of_cons, elem_of_nil.
  intros [->|[->|[->|[->|[]]]]] [=]; lia.
Qed.

Lemma fillable_colorPixel_other w h data startColor fill p q :
  outOfBounds w h p = false -> q <> p ->
  fillable w h (colorPixel data (pixelIdx w p) fill) startColor fill q
  = fillable w h data startColor fill q.
Proof.
  intros Hp Hne. unfold fillable.
  destruct (outOfBounds w h q) eqn:Hq; [done|].
  by rewrite (readRgb_colorPixel_other w h data p q fill Hp Hq).
Qed.

(** A queue of pixels that are not fillable is emptied without a write. *)
Lemma floodLoop_skip_all w h startColor fill data : forall queue fuel,
  (forall q, q ∈ queue -> fillable w h data startColor fill q = false) ->
  (length queue <= fuel)%nat ->
  floodLoop fuel w h startColor fill data queue = Some data.
Proof.
  induction queue as [|q rest IH]; intros fuel Hskip Hfuel.
  - apply floodLoop_nil.
  - destruct fuel as [|fuel]; [cbn in Hfuel; lia|].
    rewrite floodLoop_fillable, (Hskip q) by apply list_elem_of_here.
    apply IH; [|cbn in Hfuel; lia].
    intros q' Hq'. apply Hskip. by apply list_elem_of_further.
Qed.

(** X19. The fill goes up, down, left and right only: when the clicked
    pixel can be filled and none of its four neighbours can, the fill
    writes that one pixel and nothing else, whatever lies on the
    diagonals and whatever the fill colour. *)
Theorem floodFill_single_pixel fuel w h data x y fill :
  fillable w h data (readRgb data (pixelIdx w (x, y))) fill (x, y) = true ->
  (forall q, q ∈ neighbours (x, y) ->
             fillable w h data (readRgb data (pixelIdx w (x, y))) fill q
             = false) ->
  (5 <= fuel)%nat ->
  floodFill fuel w h data x y fill
  = Some (colorPixel data (pixelIdx w (x, y)) fill).
Proof.
  intros Hseed Hnb Hfuel.
  destruct (fillable_true _ _ _ _ _ _ Hseed) as (Hb & Hl & _ & Hf).
  rewrite floodFill_loop by done.
  destruct fuel as [|fuel]; [lia|].
  rewrite floodLoop_fillable, Hseed. cbn [app].
  apply floodLoop_skip_all; [|rewrite length_neighbours; lia].
  intros q Hq.
  rewrite fillable_colorPixel_other; [by apply Hnb|done|].
  by apply neighbours_other.
Qed.

Lemma floodFill_single_pixel_witness :
  floodFill 5 3 3 framed_data 1 1 tomato
  = Some (colorPixel framed_data (pixelIdx 3 (1, 1)) tomato).
Proof.
  apply floodFill_single_pixel; [reflexivity| |lia].
  intros q Hq. unfold neighbours in Hq.
  rewrite !elem_of_cons, elem_of_nil in Hq.
  destruct Hq as [->|[->|[->|[->|[]]]]]; reflexivity.
Defined.

(** ** The palette *)

(** X20. Every colour of the palette is a colour string that parses to
    byte channels and is no line colour, and two different palette
    colours parse to different colours: with the palette no fill runs on,
    no fill locks a region, and any palette colour can be painted over
    any other. *)
Theorem colors_paint_over a b :
  In a colors -> In b colors -> paintsOver a b = true.
Proof.
  intros Ha Hb.
  assert (Hall : forallb (fun a => forallb (paintsOver a) colors) colors
                 = true) by (vm_compute; reflexivity).
  rewrite forallb_forall in Hall. specialize (Hall a Ha).
  rewrite forallb_forall in Hall. exact (Hall b Hb).
Qed.

Lemma colors_paint_over_witness : paintsOver "#808080" "#FFFFFF" = true.
Proof.
  apply colors_paint_over; unfold colors;
    repeat (first [left; reflexivity | right]).
Defined.

(** ** A cleared canvas *)

(** X21. Clearing a canvas of positive size discards every stroke:
    afterwards the buffer has the size of the surface, every pixel is
    opaque white, and the blank test answers true. *)
Theorem clearCanvas_white canvas cleared :
  context2d canvas = true -> 0 < width canvas -> 0 < height canvas ->
  clearCanvas (Some canvas) = Some cleared ->
  wellSized (width canvas) (height canvas) (pixels cleared) /\
  (forall p, outOfBounds (width canvas) (height canvas) p = false ->
             getPixel (width canvas) (pixels cleared) p
             = (Num 255, Num 255, Num 255, Num 255)) /\
  isCanvasBlank (Some cleared) = true.
Proof.
  intros Hctx Hw Hh. unfold clearCanvas. rewrite Hctx. intros [= <-].
  cbn [pixels setPixels]. split; [|split].
  - apply wellSized_fillRectAll. nia.
  - intros p Hp. by apply getPixel_fillRectAll.
  - unfold isCanvasBlank. cbn [context2d pixels setPixels]. rewrite Hctx.
    cbn [negb]. unfold fillRectAll. rewrite toUint32Array_white.
    by rewrite existsb_replicate.
Qed.

Lemma clearCanvas_white_witness :
  isCanvasBlank (Some (setPixels line_canvas [255; 255; 255; 255])) = true.
Proof.
  apply (clearCanvas_white line_canvas
           (setPixels line_canvas [255; 255; 255; 255]));
    reflexivity.
Defined.
